(** * VideoFrameExtractor: the segmentation and assessment pipeline of
    [src/src/module.js], embedded in Rocq.

    JavaScript numbers are IEEE-754 binary64 values; they are modelled by
    Rocq's primitive floats, which are the same format, so that [0 / 0],
    [NaN <= 10] and the rounding of [count / total * words.length] behave
    here as they do in the source.

    The route handler is a computation on a world made of the local file
    system, the records of the result cache and the record of the calls
    made to the collaborators; how each collaborator answers is given by
    an environment, over which the properties of the route quantify.

    What [transcribeAudio] and [gptJson] do with the answer of their
    service, the format the upload middleware asks for, and the two
    extraction routes of the first version of the module are embedded as
    well. *)

From Stdlib Require Import Floats ZArith Ascii String.
From stdpp Require Import gmap strings list pretty.

Local Open Scope string_scope.
Local Open Scope list_scope.
Local Open Scope stdpp_scope.

(** ** JavaScript numbers *)

Module Num.

(** [Math.max(a, b)] for two numbers: NaN if either is NaN, and [+0] is
    larger than [-0]. *)
Definition Math_max (a b : float) : float :=
  if (is_nan a || is_nan b)%bool then nan
  else if (a <? b)%float then b
  else if (b <? a)%float then a
  else match classify a with NZero => b | _ => a end.

(** A number is falsy when it is [+0], [-0] or NaN. *)
Definition falsy (x : float) : bool := ((x =? 0)%float || is_nan x)%bool.

(** [x || d] on numbers. *)
Definition or_default (x d : float) : float := if falsy x then d else x.

(** The comparison results that mean "less than or equal". *)
Definition cmp_le (c : comparison) : bool :=
  match c with Gt => false | _ => true end.

(** [x <= y] holds. *)
Definition fle (x y : float) : Prop := (x <=? y)%float = true.

End Num.

(** ** Frames and their categories *)

Record Frame := mkFrame {
  id : string;
  timestamp : float;
  url : string;
  size : float
}.

Record CategorizedFrames := mkCategories {
  opening : list Frame;
  setup : list Frame;
  main : list Frame;
  climax : list Frame;
  closing : list Frame;
  maxTimestamp : float
}.

(** The five fixed segment names, the keys of the categories object. *)
Inductive Segment := Opening | Setup | Main | Climax | Closing.

#[global] Instance Segment_eq_dec : EqDecision Segment.
Proof. solve_decision. Defined.

Definition segment_name (k : Segment) : string :=
  match k with
  | Opening => "opening" | Setup => "setup" | Main => "main"
  | Climax => "climax" | Closing => "closing"
  end.

(** [categories[key]] for one of the five segment keys. *)
Definition bucket (categories : CategorizedFrames) (k : Segment) : list Frame :=
  match k with
  | Opening => opening categories | Setup => setup categories
  | Main => main categories | Climax => climax categories
  | Closing => closing categories
  end.

(** [arr.push(x)] *)
Definition push {A} (l : list A) (x : A) : list A := l ++ [x].

(** The [if]/[else if] chain of [categorizeFrames] on a percentage. *)
Definition segment_of_perc (perc : float) : Segment :=
  if (perc <=? 10)%float then Opening
  else if (perc <=? 20)%float then Setup
  else if (perc <=? 60)%float then Main
  else if (perc <=? 90)%float then Climax
  else Closing.

(** [categories[k].push(frame)] *)
Definition push_bucket (categories : CategorizedFrames) (k : Segment) (frame : Frame)
  : CategorizedFrames :=
  let '(mkCategories o s m c cl mx) := categories in
  match k with
  | Opening => mkCategories (push o frame) s m c cl mx
  | Setup => mkCategories o (push s frame) m c cl mx
  | Main => mkCategories o s (push m frame) c cl mx
  | Climax => mkCategories o s m (push c frame) cl mx
  | Closing => mkCategories o s m c (push cl frame) mx
  end.

(** The body of the [forEach] callback of [categorizeFrames]: the frame is
    pushed on the bucket its percentage selects. *)
Definition categorize_step (maxTimestamp : float)
    (categories : CategorizedFrames) (frame : Frame) : CategorizedFrames :=
  let perc := (timestamp frame / maxTimestamp * 100)%float in
  push_bucket categories (segment_of_perc perc) frame.

(** The segment that callback selects for a frame. *)
Definition frame_segment (maxTimestamp : float) (frame : Frame) : Segment :=
  segment_of_perc (timestamp frame / maxTimestamp * 100)%float.

Definition categorizeFrames (frames : list Frame) : CategorizedFrames :=
  if decide (length frames = 0) then mkCategories [] [] [] [] [] 0%float
  else
    let maxTimestamp :=
      fold_left (fun max f => Num.Math_max max (timestamp f)) frames 0%float in
    let categories := mkCategories [] [] [] [] [] maxTimestamp in
    fold_left (categorize_step maxTimestamp) frames categories.

(** A video shorter than the frame interval yields one frame, at index 0 and
    timestamp [0 * interval = 0]. *)
Definition frame0 : Frame :=
  mkFrame "frame-0" 0%float "https://cdn.example/frame-0.jpeg" 1024%float.

Definition frame_at (i : string) (t : float) : Frame :=
  mkFrame ("frame-" +:+ i) t "https://cdn.example/f.jpeg" 1024%float.

(** The frames of the categorizer example: timestamps 0, 1, 5, 9, 10. *)
Definition frames_example : list Frame :=
  [frame_at "0" 0%float; frame_at "1" 1%float; frame_at "2" 5%float;
   frame_at "3" 9%float; frame_at "4" 10%float].

(** ** Strings and arrays *)

Module Js.

(** [s.split(sep)] for a separator of one character: the pieces between the
    occurrences of [sep]; the empty string gives one empty piece. *)
Fixpoint split (sep : ascii) (s : string) : list string :=
  match s with
  | EmptyString => [EmptyString]
  | String c s' =>
    if Ascii.eqb c sep then EmptyString :: split sep s'
    else match split sep s' with
         | w :: ws => String c w :: ws
         | [] => [String c EmptyString]
         end
  end.

(** Whether the character occurs in the string. *)
Fixpoint has_char (c : ascii) (s : string) : bool :=
  match s with
  | EmptyString => false
  | String d s' => (Ascii.eqb d c || has_char c s')%bool
  end.

(** [arr.join(sep)] *)
Fixpoint join (sep : string) (l : list string) : string :=
  match l with
  | [] => ""
  | x :: l' =>
    match l' with
    | [] => x
    | _ => x +:+ sep +:+ join sep l'
    end
  end.

(** [arr.slice(start, end)] for non-negative integer bounds: both are
    clamped to the length, and an end before the start gives the empty
    array. *)
Definition slice {A} (l : list A) (start end_ : nat) : list A :=
  let len := length l in
  let k := Nat.min start len in
  let final := Nat.min end_ len in
  firstn (final - k) (skipn k l).

(** An array length as a number.  Array lengths are below [2^32], where the
    conversion is exact. *)
Definition of_nat (n : nat) : float :=
  PrimFloat.of_uint63 (Uint63.of_Z (Z.of_nat n)).

(** [Math.floor(x)] as an array index, for a finite [x >= 0]. *)
Definition floor_nat (x : float) : nat :=
  match Prim2SF x with
  | S754_finite false m e =>
    Z.to_nat (if (0 <=? e)%Z then Z.pos m * 2 ^ e else Z.pos m / 2 ^ (- e))
  | _ => 0
  end.

End Js.

(** ** The transcript splitter *)

Definition space : ascii := " "%char.

(** [Math.floor((count / total) * words.length)] *)
Definition take_count (count total nwords : nat) : nat :=
  Js.floor_nat (Js.of_nat count / Js.of_nat total * Js.of_nat nwords)%float.

(** One turn of the [for] loop of [splitTranscript]: the state is the
    cursor and the [parts] object. *)
Definition split_step (categories : CategorizedFrames) (total : nat)
    (words : list string) (st : nat * gmap string string) (key : Segment)
  : nat * gmap string string :=
  let '(cursor, parts) := st in
  let count := length (bucket categories key) in
  let take := take_count count total (length words) in
  let parts :=
    <[segment_name key := Js.join " " (Js.slice words cursor (cursor + take))]>
      parts in
  (cursor + take, parts).

Definition splitTranscript (transcript : string) (categories : CategorizedFrames)
  : gmap string string :=
  let total :=
    length (opening categories) + length (setup categories) +
    length (main categories) + length (climax categories) +
    length (closing categories) in
  if decide (total = 0) then
    <["opening" := ""]> (<["setup" := ""]> (<["main" := ""]>
      (<["climax" := ""]> (<["closing" := ""]>
        (<["general" := transcript]> ∅)))))
  else
    let words := Js.split space transcript in
    let '(cursor, parts) :=
      fold_left (split_step categories total words)
        [Opening; Setup; Main; Climax; Closing] (0, ∅) in
    <["general" := transcript]> parts.

(** *** The splitter as the specification describes it *)

Record TranscriptSegments := mkSegments {
  seg_opening : string;
  seg_setup : string;
  seg_main : string;
  seg_climax : string;
  seg_closing : string;
  seg_general : string
}.


Module Spec.

(** Tokenize into words by splitting at the space character. *)
Definition tokenize (transcript : string) : list string :=
  Js.split space transcript.

(** [take = floor((bucketCount / total) * wordCount)], on numbers. *)
Definition take_of (bucketCount total wordCount : nat) : nat :=
  Js.floor_nat
    (Js.of_nat bucketCount / Js.of_nat total * Js.of_nat wordCount)%float.

(** [take] words starting at [cursor], joined with single spaces. *)
Definition run (words : list string) (cursor take : nat) : string :=
  Js.join " " (firstn take (skipn cursor words)).

Definition split (transcript : string) (categories : CategorizedFrames)
  : TranscriptSegments :=
  let words := tokenize transcript in
  let n k := length (bucket categories k) in
  let total := n Opening + n Setup + n Main + n Climax + n Closing in
  if (total =? 0)%nat then mkSegments "" "" "" "" "" transcript
  else
    let t k := take_of (n k) total (length words) in
    let c_setup := t Opening in
    let c_main := c_setup + t Setup in
    let c_climax := c_main + t Main in
    let c_closing := c_climax + t Climax in
    mkSegments (run words 0 (t Opening)) (run words c_setup (t Setup))
      (run words c_main (t Main)) (run words c_climax (t Climax))
      (run words c_closing (t Closing)) transcript.

End Spec.

(** The number of words of a string: its non-empty pieces between spaces. *)
Definition word_count (s : string) : nat :=
  length (filter (fun w => w <> "") (Js.split space s)).

(** The non-empty strings of an array. *)
Definition nonempty_count (l : list string) : nat :=
  length (filter (fun w => w <> "") l).

(** Categories with the given bucket sizes. *)
Definition categories_of_counts (o s m c cl : nat) : CategorizedFrames :=
  mkCategories (replicate o frame0) (replicate s frame0) (replicate m frame0)
    (replicate c frame0) (replicate cl frame0) 0%float.

(** ** JavaScript values and the result validators *)

(** The values [JSON.parse] produces, and [undefined], which reading a
    missing property yields.  An object is the list of its own properties. *)
#[local] Set Warnings "-register-all".

Inductive value :=
| VUndefined
| VNull
| VBool (b : bool)
| VNum (x : float)
| VStr (s : string)
| VArr (items : list value)
| VObj (props : list (string * value)).

(** A call either returns or throws an [Error] with a message. *)
Inductive result (A : Type) : Type :=
| Ok (a : A)
| Throw (message : string).

Arguments Ok {A} a.
Arguments Throw {A} message.

Definition typeof (v : value) : string :=
  match v with
  | VUndefined => "undefined"
  | VNull => "object"
  | VBool _ => "boolean"
  | VNum _ => "number"
  | VStr _ => "string"
  | VArr _ => "object"
  | VObj _ => "object"
  end.

Definition Array_isArray (v : value) : bool :=
  match v with VArr _ => true | _ => false end.

(** [v === null] *)
Definition is_null (v : value) : bool :=
  match v with VNull => true | _ => false end.

(** ToBoolean *)
Definition truthy (v : value) : bool :=
  match v with
  | VUndefined | VNull => false
  | VBool b => b
  | VNum x => negb (Num.falsy x)
  | VStr s => negb (String.eqb s "")
  | VArr _ | VObj _ => true
  end.

(** The own property [name] of an object, [undefined] when it has none. *)
Fixpoint own_property (props : list (string * value)) (name : string) : value :=
  match props with
  | [] => VUndefined
  | (k, v) :: props' => if String.eqb k name then v else own_property props' name
  end.

(** [v.name]: a TypeError on [undefined] and [null].  Of the properties the
    prototypes supply only [length] is modelled; the names this program
    reads are not among the inherited ones. *)
Definition get_prop (v : value) (name : string) : result value :=
  match v with
  | VUndefined => Throw "Cannot read properties of undefined"
  | VNull => Throw "Cannot read properties of null"
  | VObj props => Ok (own_property props name)
  | VArr items =>
    Ok (if String.eqb name "length" then VNum (Js.of_nat (length items))
        else VUndefined)
  | VStr s =>
    Ok (if String.eqb name "length" then VNum (Js.of_nat (String.length s))
        else VUndefined)
  | VBool _ | VNum _ => Ok VUndefined
  end.

(** [v?.name] *)
Definition get_prop_opt (v : value) (name : string) : result value :=
  match v with
  | VUndefined | VNull => Ok VUndefined
  | _ => get_prop v name
  end.

(** [Object.values(v)] *)
Definition Object_values (v : value) : result (list value) :=
  match v with
  | VUndefined | VNull => Throw "Cannot convert undefined or null to object"
  | VObj props => Ok (map snd props)
  | VArr items => Ok items
  | VStr s => Ok (map (fun c => VStr (String c "")) (list_ascii_of_string s))
  | VBool _ | VNum _ => Ok []
  end.

(** [v.every(p)]: a TypeError when [v] has no such method. *)
Definition Array_every (v : value) (p : value -> bool) : result bool :=
  match v with
  | VArr items => Ok (forallb p items)
  | VUndefined => Throw "Cannot read properties of undefined"
  | VNull => Throw "Cannot read properties of null"
  | _ => Throw "every is not a function"
  end.

Definition result_bind {A B} (r : result A) (k : A -> result B) : result B :=
  match r with
  | Ok a => k a
  | Throw e => Throw e
  end.

(** [a && b]: [b] is evaluated only when [a] is truthy. *)
Definition and_then (a : result value) (b : unit -> result value) : result value :=
  result_bind a (fun x => if truthy x then b tt else Ok x).

Notation "a &&? b" := (and_then a (fun _ => b))
  (at level 41, right associativity).

Definition isAssessmentIndicator (obj : value) : result value :=
  if (negb (String.eqb (typeof obj) "object") || Array_isArray obj
      || is_null obj)%bool
  then Ok (VBool false)
  else
    result_bind (Object_values obj) (fun vals =>
    Ok (VBool (forallb (fun v => String.eqb (typeof v) "boolean") vals))).

Definition isResultItem (obj : value) : result value :=
  Ok obj &&?
  result_bind (get_prop obj "recomendations")
    (fun r => Ok (VBool (Array_isArray r))) &&?
  result_bind (get_prop obj "recomendations") (fun r =>
    result_bind (Array_every r (fun r => String.eqb (typeof r) "string"))
      (fun b => Ok (VBool b))) &&?
  result_bind (get_prop obj "assessmentIndicators") isAssessmentIndicator.

Definition isOpenAIResponseResult (obj : value) : result value :=
  Ok obj &&?
  result_bind (get_prop_opt obj "opening") isResultItem &&?
  result_bind (get_prop_opt obj "setup") isResultItem &&?
  result_bind (get_prop_opt obj "main") isResultItem &&?
  result_bind (get_prop_opt obj "climax") isResultItem &&?
  result_bind (get_prop_opt obj "closing") isResultItem &&?
  get_prop_opt obj "general" &&?
  result_bind (get_prop_opt obj "general") isResultItem &&?
  result_bind (get_prop_opt obj "general") (fun g =>
    result_bind (get_prop_opt g "summary") (fun s =>
      Ok (VBool (String.eqb (typeof s) "string")))).

(** A validator accepts when it returns a truthy value. *)
Definition accepts (r : result value) : Prop :=
  exists v, r = Ok v /\ truthy v = true.

(** *** The shapes as the specification words them *)

Module Shape.

(** The field of a value: the own property of an object, nothing for
    anything else. *)
Definition field (x : value) (name : string) : value :=
  match x with
  | VObj props => own_property props name
  | _ => VUndefined
  end.

(** A non-array, non-null object whose every value is boolean. *)
Definition AssessmentIndicator (x : value) : Prop :=
  exists props, x = VObj props /\
    Forall (fun kv => exists b, snd kv = VBool b) props.

(** [recomendations] is an array of strings and [assessmentIndicators] is
    an indicator mapping. *)
Definition ResultItem (x : value) : Prop :=
  (exists items, field x "recomendations" = VArr items /\
     Forall (fun r => exists s, r = VStr s) items) /\
  AssessmentIndicator (field x "assessmentIndicators").

(** The five segment fields and [general] are result items, and [general]
    has a string [summary]. *)
Definition AssessmentDocument (x : value) : Prop :=
  (forall k : Segment, ResultItem (field x (segment_name k))) /\
  ResultItem (field x "general") /\
  exists s, field (field x "general") "summary" = VStr s.

End Shape.

(** [{recomendations: [], assessmentIndicators: {}}] *)
Definition empty_item : value :=
  VObj [("recomendations", VArr []); ("assessmentIndicators", VObj [])].

(** [{recomendations: ["x"], assessmentIndicators: {clarity: true}}] *)
Definition item_ok : value :=
  VObj [("recomendations", VArr [VStr "x"]);
        ("assessmentIndicators", VObj [("clarity", VBool true)])].

(** [{recomendations: [1], assessmentIndicators: {}}] *)
Definition item_wrong_element : value :=
  VObj [("recomendations", VArr [VNum 1]); ("assessmentIndicators", VObj [])].

(** ** Extraction settings *)

(** Built-ins and library functions the program calls and the repository
    does not define.  No property below depends on what they compute. *)
Record Runtime := mkRuntime {
  sha256_hex : list Byte.byte -> string;
  JSON_stringify : value -> string;
  StringToNumber : string -> float;
  ObjectToNumber : value -> float;
  ToString : value -> string
}.

(** The request-supplied settings object: three properties, any of which
    may be [undefined]. *)
Record Settings := mkSettings {
  s_interval : value;
  s_format : value;
  s_quality : value
}.

Record UsedSettings := mkUsedSettings {
  interval : float;
  format : value;
  quality : float
}.

(** 0.8, the binary64 number nearest to it. *)
Definition default_number : float := 0x1.999999999999ap-1%float.

Section Settings.

Variable rt : Runtime.

(** [Number(v)] *)
Definition ToNumber (v : value) : float :=
  match v with
  | VUndefined => nan
  | VNull => 0%float
  | VBool true => 1%float
  | VBool false => 0%float
  | VNum x => x
  | VStr s => StringToNumber rt s
  | VArr _ | VObj _ => ObjectToNumber rt v
  end.

(** [a || b] on values. *)
Definition or_else (a b : value) : value := if truthy a then a else b.

(** The [usedSettings] object of [extractAndUploadFrames]. *)
Definition usedSettings (settings : Settings) : UsedSettings :=
  {| interval := Num.or_default (ToNumber (s_interval settings)) default_number;
     format := or_else (s_format settings) (VStr "jpeg");
     quality := Num.or_default (ToNumber (s_quality settings)) default_number |}.

End Settings.

(** [idx * usedSettings.interval], the timestamp of the frame of index
    [idx]. *)
Definition frame_timestamp (used : UsedSettings) (idx : nat) : float :=
  (Js.of_nat idx * interval used)%float.

(** A runtime for examples: the digest lists the bytes in decimal, strings
    and objects convert to NaN. *)
Definition example_runtime : Runtime :=
  mkRuntime
    (fun bytes => foldr (fun b s => pretty (Byte.to_nat b) +:+ "." +:+ s) "" bytes)
    (fun _ => "{}") (fun _ => nan) (fun _ => nan)
    (fun v => match v with VStr s => s | _ => "undefined" end).

(** ** The world of one request *)

(** The local file system: a path holds a file or is a directory. *)
Inductive node :=
| File (bytes : list Byte.byte)
| Dir.

Record Message := mkMessage {
  role : string;
  content : string
}.

(** The calls made to the collaborators: the result cache, the media
    tools, the object storage, the transcription and completion services. *)
Inductive Event :=
| FindUnique (identifier : string)
| Create (identifier : string) (data : value)
| FfmpegAudio (input output : string)
| FfmpegFrames (input pattern : string) (every : float)
| Ffprobe (path : string)
| Upload (path folder : string)
| Fetch (target : value)
| Transcribe (path : string)
| GptJson (messages : list Message).

Record World := mkWorld {
  files : gmap string node;
  db : gmap string value;
  calls : list Event
}.

Record UploadResult := mkUpload {
  secure_url : string;
  public_id : string;
  upload_format : string;
  upload_bytes : float
}.

(** What [extractAndUploadAudio] derives from the probe of the audio file:
    duration, sample rate, channels and channel layout.  These are passed
    through to the stored record and read by nothing else. *)
Record AudioProbe := mkAudioProbe {
  audio_duration : value;
  audio_sampleRate : value;
  audio_channels : value;
  audio_channelLayout : value
}.

(** The probe of the video: width and height of the video stream, if there
    is one, and the duration. *)
Record VideoProbe := mkVideoProbe {
  video_stream : option (value * value);
  video_duration : value
}.

(** How the collaborators answer during one request. *)
Record Env := mkEnv {
  now_audio : string;
  now_frames : string;
  findUnique_outcome : result unit;
  ffmpeg_audio : result (list Byte.byte);
  ffprobe_audio : result AudioProbe;
  upload_audio : result UploadResult;
  ffprobe_video : result VideoProbe;
  ffmpeg_frames : result (list string);
  upload_frame : string -> result UploadResult;
  fetch_audio : result unit;
  fetch_body : result (list Byte.byte);
  transcribe : result string;
  gptJson_outcome : list Message -> result value;
  create_outcome : result unit
}.

Record UploadedFile := mkUploadedFile {
  file_path : string;
  file_mimetype : string;
  file_size : float;
  file_name : string
}.

Record Request := mkRequest {
  req_file : option UploadedFile;
  req_body : Settings
}.

Record Response := mkResponse {
  status : nat;
  body : value
}.

Record FramesData := mkFramesData {
  frames : list Frame;
  videoFile : value;
  settings_used : UsedSettings
}.

(** A computation on the world that returns or throws. *)
Definition M (A : Type) : Type := World -> result A * World.

#[global] Instance M_ret : MRet M := fun A a w => (Ok a, w).

#[global] Instance M_bind : MBind M := fun A B k m w =>
  match m w with
  | (Ok a, w') => k a w'
  | (Throw e, w') => (Throw e, w')
  end.

#[global] Instance M_throw : MThrow string M := fun A e w => (Throw e, w).

(** [try { body } catch (error) { handler(error.message) }] *)
Definition try_catch {A} (body : M A) (handler : string -> M A) : M A :=
  fun w =>
    match body w with
    | (Ok a, w') => (Ok a, w')
    | (Throw e, w') => handler e w'
    end.

Definition lift {A} (r : result A) : M A := fun w => (r, w).

(** A call to a collaborator: it is recorded and answers with [outcome]. *)
Definition call {A} (ev : Event) (outcome : result A) : M A :=
  fun w => (outcome, mkWorld (files w) (db w) (calls w ++ [ev])).

Definition get_files : M (gmap string node) := fun w => (Ok (files w), w).

Definition set_files (fs : gmap string node) : M unit :=
  fun w => (Ok tt, mkWorld fs (db w) (calls w)).

Definition get_db : M (gmap string value) := fun w => (Ok (db w), w).

Definition set_db (records : gmap string value) : M unit :=
  fun w => (Ok tt, mkWorld (files w) records (calls w)).

Definition when_ (b : bool) (m : M unit) : M unit := if b then m else mret tt.

(** [Promise.all([a, b])]: both computations are started and neither is
    cancelled when the other fails; here [a] runs to its end, then [b]. *)
Definition promise_all2 {A B} (a : M A) (b : M B) : M (A * B) :=
  fun w =>
    let '(ra, w1) := a w in
    let '(rb, w2) := b w1 in
    match ra, rb with
    | Ok x, Ok y => (Ok (x, y), w2)
    | Throw e, _ => (Throw e, w2)
    | _, Throw e => (Throw e, w2)
    end.

(** [Promise.all(tasks)] *)
Fixpoint promise_all {A} (tasks : list (M A)) : M (list A) :=
  match tasks with
  | [] => mret []
  | t :: ts =>
    fun w =>
      let '(r, w1) := t w in
      let '(rs, w2) := promise_all ts w1 in
      match r, rs with
      | Ok x, Ok xs => (Ok (x :: xs), w2)
      | Throw e, _ => (Throw e, w2)
      | _, Throw e => (Throw e, w2)
      end
  end.

(** *** The file system *)

Definition path_join (a b : string) : string := a +:+ "/" +:+ b.

Definition ends_with (s suffix : string) : bool :=
  let n := String.length s in
  let m := String.length suffix in
  (m <=? n)%nat && String.eqb (substring (n - m) m s) suffix.

(** The name of [path] inside [dir], when it is directly inside it. *)
Definition child_name (dir path : string) : option string :=
  let pre := dir +:+ "/" in
  if String.prefix pre path then
    let name := substring (String.length pre)
                  (String.length path - String.length pre) path in
    if (Js.has_char "/" name || String.eqb name "")%bool then None
    else Some name
  else None.

Fixpoint insert_sorted (x : string) (l : list string) : list string :=
  match l with
  | [] => [x]
  | y :: l' => if String.leb x y then x :: l else y :: insert_sorted x l'
  end.

(** The names in [dir], in alphabetical order. *)
Definition children (fs : gmap string node) (dir : string) : list string :=
  foldr insert_sorted []
    (omap (fun kv => child_name dir (fst kv)) (map_to_list fs)).

Definition existsSync (path : string) : M bool :=
  fs ← get_files;
  mret (match fs !! path with Some _ => true | None => false end).

Definition unlinkSync (path : string) : M unit :=
  fs ← get_files;
  match fs !! path with
  | Some (File _) => set_files (delete path fs)
  | Some Dir => mthrow "EPERM: operation not permitted, unlink"
  | None => mthrow "ENOENT: no such file or directory, unlink"
  end.

Definition mkdirSync (path : string) : M unit :=
  fs ← get_files;
  match fs !! path with
  | Some _ => mthrow "EEXIST: file already exists, mkdir"
  | None => set_files (<[path := Dir]> fs)
  end.

Definition readdirSync (path : string) : M (list string) :=
  fs ← get_files;
  match fs !! path with
  | Some Dir => mret (children fs path)
  | Some (File _) => mthrow "ENOTDIR: not a directory, scandir"
  | None => mthrow "ENOENT: no such file or directory, scandir"
  end.

Definition rmdirSync (path : string) : M unit :=
  fs ← get_files;
  match fs !! path with
  | Some Dir =>
    match children fs path with
    | [] => set_files (delete path fs)
    | _ => mthrow "ENOTEMPTY: directory not empty, rmdir"
    end
  | Some (File _) => mthrow "ENOTDIR: not a directory, rmdir"
  | None => mthrow "ENOENT: no such file or directory, rmdir"
  end.

(** A tool or a stream writes a file. *)
Definition write_file (path : string) (bytes : list Byte.byte) : M unit :=
  fs ← get_files; set_files (<[path := File bytes]> fs).

(** [if (fs.existsSync(path)) fs.unlinkSync(path)] *)
Definition unlink_if_exists (path : string) : M unit :=
  e ← existsSync path; when_ e (unlinkSync path).

(** [if (!fs.existsSync(path)) fs.mkdirSync(path)] *)
Definition mkdir_if_missing (path : string) : M unit :=
  e ← existsSync path; when_ (negb e) (mkdirSync path).

(** ** The pipeline *)

Definition quote : string := String (ascii_of_nat 34) "".
Definition newline : string := String (ascii_of_nat 10) "".

(** The fixed text that ends both prompts asks for JSON of the result-item
    shape; only its first line is kept, no property reads it. *)
Definition prompt_format_text : string :=
  "Return ONLY a valid JSON in the following format:".

Definition buildPrompt (segmentName segmentAudio : string)
    (segmentFrames : list Frame) : string :=
  newline +:+ "Do an assessment of the following video segment: " +:+
  quote +:+ segmentName +:+ quote +:+ "." +:+ newline +:+
  "Attached frames (images): " +:+ Js.join ", " (map url segmentFrames) +:+
  newline +:+ "Transcript audio: " +:+ segmentAudio +:+ newline +:+ newline +:+
  prompt_format_text +:+ newline.

Definition system_message : Message :=
  mkMessage "system" "You are proffesional video analyzer.".

Definition partNames : list Segment := [Opening; Setup; Main; Climax; Closing].

(** [parts[name]] inside a template literal. *)
Definition part_text (parts : gmap string string) (name : string) : string :=
  default "undefined" (parts !! name).

Definition value_of_frame (f : Frame) : value :=
  VObj [("id", VStr (id f)); ("timestamp", VNum (timestamp f));
        ("url", VStr (url f)); ("size", VNum (size f))].

Definition value_of_categories (c : CategorizedFrames) : value :=
  VObj [("opening", VArr (map value_of_frame (opening c)));
        ("setup", VArr (map value_of_frame (setup c)));
        ("main", VArr (map value_of_frame (main c)));
        ("climax", VArr (map value_of_frame (climax c)));
        ("closing", VArr (map value_of_frame (closing c)));
        ("maxTimestamp", VNum (maxTimestamp c))].

(** The body of the response that reports a failure. *)
Definition failure_body (message : string) : value :=
  VObj [("message", VStr "Sorry there's a problem"); ("error", VStr message)].

Section Pipeline.

Variable rt : Runtime.
Variable env : Env.

(** The digest of the bytes at [filePath]; the stream fails when there is
    no file to read. *)
Definition getFileHash (filePath : string) : M string :=
  fs ← get_files;
  match fs !! filePath with
  | Some (File bytes) => mret (sha256_hex rt bytes)
  | Some Dir => mthrow "EISDIR: illegal operation on a directory, read"
  | None => mthrow "ENOENT: no such file or directory, open"
  end.

(** [prisma.data.findUnique({ where: { identifier } })], giving the
    [result] column of the record found. *)
Definition findUnique (identifier : string) : M (option value) :=
  call (FindUnique identifier) (findUnique_outcome env);;
  records ← get_db;
  mret (records !! identifier).

(** [prisma.data.create]: the identifier is unique. *)
Definition create (identifier : string) (data : value) : M value :=
  call (Create identifier data) (create_outcome env);;
  records ← get_db;
  match records !! identifier with
  | Some _ => mthrow "Unique constraint failed on the fields: (identifier)"
  | None => set_db (<[identifier := data]> records);; mret data
  end.

Definition gptJson (messages : list Message) : M value :=
  call (GptJson messages) (gptJson_outcome env messages).

Definition transcribeAudio (audioFilePath : string) : M string :=
  call (Transcribe audioFilePath) (transcribe env).

Definition extractAndUploadAudio (localVideoPath : string) : M value :=
  mkdir_if_missing "temp";;
  let audioFileName := now_audio env +:+ "-audio.wav" in
  let tempAudioPath := path_join "temp" audioFileName in
  audio ← call (FfmpegAudio localVideoPath tempAudioPath) (ffmpeg_audio env);
  write_file tempAudioPath audio;;
  metadata ← call (Ffprobe tempAudioPath) (ffprobe_audio env);
  uploadAudioResult ← call (Upload tempAudioPath "audio") (upload_audio env);
  unlink_if_exists tempAudioPath;;
  mret (VObj [("url", VStr (secure_url uploadAudioResult));
              ("name", VStr (public_id uploadAudioResult));
              ("format", VStr (upload_format uploadAudioResult));
              ("size", VNum (upload_bytes uploadAudioResult));
              ("duration", audio_duration metadata);
              ("sampleRate", audio_sampleRate metadata);
              ("channels", audio_channels metadata);
              ("channelLayout", audio_channelLayout metadata)]).

(** The upload of the frame file of index [idx]. *)
Definition upload_one (tempFramesDir : string) (used : UsedSettings)
    (idx : nat) (file : string) : M Frame :=
  let framePath := path_join tempFramesDir file in
  uploaded ← call (Upload framePath "frames") (upload_frame env framePath);
  mret (mkFrame ("frame-" +:+ pretty idx) (frame_timestamp used idx)
          (secure_url uploaded) (upload_bytes uploaded)).

(** One turn of the clean-up [forEach] over the frame files. *)
Definition cleanup_frame (tempFramesDir : string) (acc : M unit) (f : string)
  : M unit :=
  acc;; unlink_if_exists (path_join tempFramesDir f).

Definition extractAndUploadFrames (localVideoPath : string)
    (fileInfo : UploadedFile) (settings : Settings) : M FramesData :=
  mkdir_if_missing "temp";;
  let tempFramesDir := path_join "temp" ("frames-" +:+ now_frames env) in
  mkdir_if_missing tempFramesDir;;
  meta ← call (Ffprobe localVideoPath) (ffprobe_video env);
  match video_stream meta with
  | None => mthrow "No video stream found"
  | Some (width, height) =>
    let duration := video_duration meta in
    let used := usedSettings rt settings in
    let framePattern :=
      path_join tempFramesDir ("frame-%03d." +:+ ToString rt (format used)) in
    written ← call (FfmpegFrames localVideoPath framePattern (interval used))
                (ffmpeg_frames env);
    fold_left (fun acc name => acc;; write_file (path_join tempFramesDir name) [])
      written (mret tt);;
    listed ← readdirSync tempFramesDir;
    let files :=
      List.filter (fun f => ends_with f (ToString rt (format used))) listed in
    let uploads := imap (upload_one tempFramesDir used) files in
    extractedFrames ← promise_all uploads;
    fold_left (cleanup_frame tempFramesDir) files (mret tt);;
    e ← existsSync tempFramesDir;
    when_ e (rmdirSync tempFramesDir);;
    mret (mkFramesData extractedFrames
            (VObj [("url", VNull); ("duration", duration); ("width", width);
                   ("height", height); ("format", VStr (file_mimetype fileInfo));
                   ("size", VNum (file_size fileInfo));
                   ("name", VStr (file_name fileInfo))])
            used)
  end.

(** The transcript: the one the audio data carries if it has one,
    otherwise the uploaded audio is fetched to a local file and
    transcribed. *)
Definition transcript_of (audioData : value) : M string :=
  transcript ← lift (get_prop audioData "transcript");
  if negb (truthy transcript) then
    audioUrl ← lift (get_prop audioData "url");
    let audioFileName := "audio-temp.wav" in
    let audioTempPath := path_join "temp" audioFileName in
    mkdir_if_missing "temp";;
    call (Fetch audioUrl) (fetch_audio env);;
    write_file audioTempPath [];;
    received ← lift (fetch_body env);
    write_file audioTempPath received;;
    text ← transcribeAudio audioTempPath;
    unlink_if_exists audioTempPath;;
    mret text
  else
    match transcript with
    | VStr text => mret text
    | _ => mthrow "transcript.split is not a function"
    end.

Definition summaryPrompt (opening setup main climax closing : value)
    (general : string) : string :=
  newline +:+
  "You are given the assessment results of each part of a video:" +:+ newline +:+
  "Opening: " +:+ JSON_stringify rt opening +:+ "," +:+ newline +:+
  "Setup: " +:+ JSON_stringify rt setup +:+ "," +:+ newline +:+
  "Main: " +:+ JSON_stringify rt main +:+ "," +:+ newline +:+
  "Climax: " +:+ JSON_stringify rt climax +:+ "," +:+ newline +:+
  "Closing: " +:+ JSON_stringify rt closing +:+ newline +:+ newline +:+
  "And the following is the full transcript of the video's audio:" +:+ newline +:+
  general +:+ newline +:+ newline +:+ prompt_format_text +:+ newline.

(** The request sent for one segment. *)
Definition segment_request (audioSegments : gmap string string)
    (categories : CategorizedFrames) (name : Segment) : M value :=
  gptJson [system_message;
           mkMessage "user"
             (buildPrompt (segment_name name)
                (part_text audioSegments (segment_name name))
                (bucket categories name))].

(** The [try] block of the route after a cache miss, up to the record that
    is to be stored. *)
Definition analyse (inputPath : string) (file : UploadedFile)
    (body : Settings) : M value :=
  '(audioData, framesData) ←
    promise_all2 (extractAndUploadAudio inputPath)
      (extractAndUploadFrames inputPath file
         (mkSettings (s_interval body) (s_format body) (s_quality body)));
  unlink_if_exists inputPath;;
  transcript ← transcript_of audioData;
  let categories := categorizeFrames (frames framesData) in
  let audioSegments := splitTranscript transcript categories in
  let openaiPayloads := map (segment_request audioSegments categories) partNames in
  answers ← promise_all openaiPayloads;
  match answers with
  | [opening; setup; main; climax; closing] =>
    general ← gptJson [system_message;
                       mkMessage "user"
                         (summaryPrompt opening setup main climax closing
                            (part_text audioSegments "general"))];
    let result := VObj [("general", general); ("opening", opening);
                        ("setup", setup); ("main", main); ("climax", climax);
                        ("closing", closing)] in
    valid ← lift (isOpenAIResponseResult result);
    if negb (truthy valid) then
      mthrow "Invalid result structure from OpenAI (does not match expected interface)"
    else
      mret (VObj [("result", result); ("audio", audioData);
                  ("frames", value_of_categories categories)])
  | _ => mthrow "undefined is not iterable"
  end.

(** The [try] block of the route. *)
Definition main_try (inputPath : string) (file : UploadedFile)
    (body : Settings) : M Response :=
  identifier ← getFileHash inputPath;
  existing ← findUnique identifier;
  match existing with
  | Some stored =>
    unlink_if_exists inputPath;;
    mret (mkResponse 200 stored)
  | None =>
    data ← analyse inputPath file body;
    created ← create identifier data;
    mret (mkResponse 200 created)
  end.

(** The [catch] block of the route. *)
Definition main_catch (inputPath : string) (message : string) : M Response :=
  unlink_if_exists inputPath;;
  mret (mkResponse 500 (failure_body message)).

(** [router.post("/api/main", upload.single("video"), ...)]: the handler
    returns the response it sends; it throws when the [catch] block itself
    fails and no response is sent. *)
Definition main_route (req : Request) : M Response :=
  match req_file req with
  | None =>
    mret (mkResponse 400 (VObj [("message", VStr "No video file uploaded")]))
  | Some file =>
    let inputPath := file_path file in
    try_catch (main_try inputPath file (req_body req)) (main_catch inputPath)
  end.

End Pipeline.

(** *** What a computation may do to the world *)

(** [m] leaves the stored records as they are. *)
Definition keeps_db {A} (m : M A) : Prop :=
  forall w, db (m w).2 = db w.

(** [m] puts nothing at a path that holds nothing. *)
Definition keeps_absent {A} (path : string) (m : M A) : Prop :=
  forall w, files w !! path = None -> files (m w).2 !! path = None.


(** A price for each call to a stage of the pipeline; the other calls are
    free. *)
Record Prices := mkPrices {
  price_audio : nat;
  price_frames : nat;
  price_transcribe : nat;
  price_gpt : nat;
  price_create : nat
}.

Definition price (c : Prices) (ev : Event) : nat :=
  match ev with
  | FfmpegAudio _ _ => price_audio c
  | FfmpegFrames _ _ _ => price_frames c
  | Transcribe _ => price_transcribe c
  | GptJson _ => price_gpt c
  | Create _ _ => price_create c
  | _ => 0
  end.

(** [m] only adds calls to the record of calls, and the calls it adds cost
    at most [n]. *)
Definition costs {A} (c : Prices) (n : nat) (m : M A) : Prop :=
  forall w, exists evs,
    calls (m w).2 = calls w ++ evs /\ sum_list_with (price c) evs <= n.

(** The world after one more call. *)
Definition called (w : World) (ev : Event) : World :=
  mkWorld (files w) (db w) (calls w ++ [ev]).

(** Every record created in a trace holds a document the validator
    accepts. *)
Definition created_valid (evs : list Event) : Prop :=
  forall identifier data, Create identifier data ∈ evs ->
    accepts (isOpenAIResponseResult (Shape.field data "result")).

Definition create_only : Prices := mkPrices 0 0 0 0 1.






Definition is_Create (ev : Event) : bool :=
  match ev with Create _ _ => true | _ => false end.

(** ** Example requests *)

Definition general_ok : value :=
  VObj [("recomendations", VArr []);
        ("assessmentIndicators", VObj []);
        ("summary", VStr "A short product demonstration.")].

Definition upload_ok : UploadResult :=
  mkUpload "https://cdn.example/asset" "asset" "bin" 2048%float.

(** Every collaborator answers; the completion service answers each
    request with [general_ok]. *)
Definition env_ok : Env :=
  mkEnv "1700000000000" "1700000000001" (Ok tt) (Ok [])
    (Ok (mkAudioProbe (VNum 2) (VNum 44100) (VNum 2) (VStr "stereo")))
    (Ok upload_ok)
    (Ok (mkVideoProbe (Some (VNum 1280, VNum 720)) (VNum 2)))
    (Ok ["frame-001.jpeg"; "frame-002.jpeg"; "frame-003.jpeg"])
    (fun _ => Ok upload_ok) (Ok tt) (Ok [])
    (Ok "welcome to the show and thanks for watching")
    (fun _ => Ok general_ok) (Ok tt).

(** As [env_ok], but the upload of the extracted audio fails. *)
Definition env_audio_upload_fails : Env :=
  mkEnv "1700000000000" "1700000000001" (Ok tt) (Ok [])
    (Ok (mkAudioProbe (VNum 2) (VNum 44100) (VNum 2) (VStr "stereo")))
    (Throw "Upload failed")
    (Ok (mkVideoProbe (Some (VNum 1280, VNum 720)) (VNum 2)))
    (Ok ["frame-001.jpeg"; "frame-002.jpeg"; "frame-003.jpeg"])
    (fun _ => Ok upload_ok) (Ok tt) (Ok [])
    (Ok "welcome to the show and thanks for watching")
    (fun _ => Ok general_ok) (Ok tt).

(** As [env_ok], but the upload of every frame fails. *)
Definition env_frame_upload_fails : Env :=
  mkEnv "1700000000000" "1700000000001" (Ok tt) (Ok [])
    (Ok (mkAudioProbe (VNum 2) (VNum 44100) (VNum 2) (VStr "stereo")))
    (Ok upload_ok)
    (Ok (mkVideoProbe (Some (VNum 1280, VNum 720)) (VNum 2)))
    (Ok ["frame-001.jpeg"; "frame-002.jpeg"; "frame-003.jpeg"])
    (fun _ => Throw "Upload failed") (Ok tt) (Ok [])
    (Ok "welcome to the show and thanks for watching")
    (fun _ => Ok general_ok) (Ok tt).

(** As [env_ok], but the transcription service returns no text. *)
Definition env_transcription_fails : Env :=
  mkEnv "1700000000000" "1700000000001" (Ok tt) (Ok [])
    (Ok (mkAudioProbe (VNum 2) (VNum 44100) (VNum 2) (VStr "stereo")))
    (Ok upload_ok)
    (Ok (mkVideoProbe (Some (VNum 1280, VNum 720)) (VNum 2)))
    (Ok ["frame-001.jpeg"; "frame-002.jpeg"; "frame-003.jpeg"])
    (fun _ => Ok upload_ok) (Ok tt) (Ok [])
    (Throw "Transcription failed: {}")
    (fun _ => Ok general_ok) (Ok tt).

Definition video_bytes : list Byte.byte := [Byte.x00; Byte.x00; Byte.x01].

(** The upload middleware has stored the video under [uploads/]. *)
Definition world0 : World :=
  mkWorld {["uploads/5f1c" := File video_bytes]} ∅ [].

Definition file0 : UploadedFile :=
  mkUploadedFile "uploads/5f1c" "video/mp4" 3%float "5f1c".

(** A second upload of the same bytes, stored under another name. *)
Definition file1 : UploadedFile :=
  mkUploadedFile "uploads/9e2d" "video/mp4" 3%float "9e2d".

Definition no_settings : Settings := mkSettings VUndefined VUndefined VUndefined.

(** The first request on [world0], and the document it returns. *)
Definition first_run : result Response * World :=
  main_route example_runtime env_ok (mkRequest (Some file0) no_settings) world0.

Definition first_doc : value :=
  match first_run.1 with
  | Ok response => body response
  | Throw _ => VNull
  end.

(** ** Further examples and code *)

(** With an interval of [Infinity] the first timestamp is
    [0 * Infinity = NaN]. *)
Definition frames_with_nan : list Frame :=
  [frame_at "0" nan; frame_at "1" infinity; frame_at "2" infinity].

(** [m] keeps the property [I] of the file system. *)
Definition preserves {A} (I : gmap string node -> Prop) (m : M A) : Prop :=
  forall w, I (files w) -> I (files (m w).2).

(** There is something at [path]. *)
Definition present (path : string) (fs : gmap string node) : Prop :=
  is_Some (fs !! path).

(** Nothing is at [path]. *)
Definition absent (path : string) (fs : gmap string node) : Prop :=
  fs !! path = None.

(** [path] is not a directory. *)
Definition not_dir (path : string) (fs : gmap string node) : Prop :=
  fs !! path <> Some Dir.

(** *** The answers of the transcription and completion services *)

(** [v[i]] for an index [i]: a TypeError on [undefined] and [null]. *)
Definition get_item (v : value) (i : nat) : result value :=
  match v with
  | VUndefined => Throw "Cannot read properties of undefined"
  | VNull => Throw "Cannot read properties of null"
  | VArr items => Ok (default VUndefined (items !! i))
  | VObj props => Ok (own_property props (pretty i))
  | VStr s =>
    Ok (match String.get i s with
        | Some c => VStr (String c "")
        | None => VUndefined
        end)
  | VBool _ | VNum _ => Ok VUndefined
  end.

(** What [transcribeAudio] and [gptJson] of [utils/openai.js] do with the
    answer of the service; the pipeline above takes their outcome from
    [Env]. *)
Module OpenAI.

Section Responses.

Variable rt : Runtime.

(** [JSON.parse] *)
Variable JSON_parse : string -> result value.

(** The string a value is converted to where a string is expected. *)
Definition to_string (v : value) : string :=
  match v with
  | VStr s => s
  | _ => ToString rt v
  end.

(** [new Error(v).message] *)
Definition error_message (v : value) : string :=
  match v with
  | VUndefined => ""
  | _ => to_string v
  end.

(** [transcribeAudio], from the body of the answer on: [fetched] is what
    [await response.json()] gives. *)
Definition transcribeAudio (fetched : result value) : result value :=
  result_bind fetched (fun data =>
  result_bind (get_prop data "text") (fun text =>
  if negb (truthy text) then
    Throw ("Transcription failed: " +:+ JSON_stringify rt data)
  else Ok text)).

(** [data.choices[0].message.content] *)
Definition first_content (data : value) : result value :=
  result_bind (get_prop data "choices") (fun choices =>
  result_bind (get_item choices 0) (fun choice =>
  result_bind (get_prop choice "message") (fun message =>
  get_prop message "content"))).

(** [gptJson], from the body of the answer on.  The [catch] block reads the
    content again to build its message. *)
Definition gptJson (fetched : result value) : result value :=
  result_bind fetched (fun data =>
  result_bind (get_prop data "error") (fun error =>
  if truthy error then
    result_bind (get_prop error "message") (fun message =>
    Throw (error_message message))
  else
    match result_bind (first_content data)
            (fun content => JSON_parse (to_string content)) with
    | Ok parsed => Ok parsed
    | Throw _ =>
      result_bind (first_content data) (fun content =>
      Throw ("Invalid JSON from OpenAI: " +:+ to_string content))
    end)).

End Responses.

End OpenAI.

(** A parser for examples: it knows the empty object only. *)
Definition example_parse (s : string) : result value :=
  if String.eqb s "{}" then Ok (VObj []) else Throw "Unexpected token".

(** [{choices: [{message: {content}}]}] *)
Definition completion (content : value) : value :=
  VObj [("choices", VArr [VObj [("message", VObj [("content", content)])]])].

(** *** The upload middleware *)

(** [file.mimetype.split('/')[1]], the [format] parameter of the storage
    that [uploadCloudinary] sets up. *)
Definition uploadCloudinary_format (mimetype : string) : value :=
  match Js.split "/" mimetype !! 1 with
  | Some ext => VStr ext
  | None => VUndefined
  end.

(** *** The routes of the first version *)

(** How the download of the stored video answers: the clock read for the
    name of the local copy, the request, and the body. *)
Record Download := mkDownload {
  now_video : string;
  fetch_video : result unit;
  video_body : result (list Byte.byte)
}.

Definition value_of_settings (used : UsedSettings) : value :=
  VObj [("interval", VNum (interval used)); ("format", format used);
        ("quality", VNum (quality used))].

Section Routes.

Variable rt : Runtime.
Variable env : Env.
Variable dl : Download.

(** [router.post('/api/audio', ...)]: the video is downloaded from the
    storage to a local copy, its audio extracted and uploaded; the [try]
    and the [catch] block both end with the removal of the two local
    files. *)
Definition audio_route (req : Request) : M Response :=
  match req_file req with
  | None =>
    mret (mkResponse 400 (VObj [("error", VStr "No video file uploaded")]))
  | Some file =>
    let videoUrl := file_path file in
    let audioFileName := now_audio env +:+ "-audio.wav" in
    let tempVideoPath := path_join "temp" (now_video dl +:+ "-video") in
    let tempAudioPath := path_join "temp" audioFileName in
    try_catch
      (mkdir_if_missing "temp";;
       call (Fetch (VStr videoUrl)) (fetch_video dl);;
       write_file tempVideoPath [];;
       received ← lift (video_body dl);
       write_file tempVideoPath received;;
       audio ← call (FfmpegAudio tempVideoPath tempAudioPath) (ffmpeg_audio env);
       write_file tempAudioPath audio;;
       metadata ← call (Ffprobe tempAudioPath) (ffprobe_audio env);
       uploadAudioResult ← call (Upload tempAudioPath "audio") (upload_audio env);
       unlink_if_exists tempVideoPath;;
       unlink_if_exists tempAudioPath;;
       mret (mkResponse 200
               (VObj [("url", VStr (secure_url uploadAudioResult));
                      ("name", VStr (public_id uploadAudioResult));
                      ("format", VStr (upload_format uploadAudioResult));
                      ("size", VNum (upload_bytes uploadAudioResult));
                      ("duration", audio_duration metadata);
                      ("sampleRate", audio_sampleRate metadata);
                      ("channels", audio_channels metadata);
                      ("channelLayout", audio_channelLayout metadata)])))
      (fun message =>
         unlink_if_exists tempVideoPath;;
         unlink_if_exists tempAudioPath;;
         mret (mkResponse 500 (failure_body message)))
  end.

(** [router.post("/api/frames", ...)]: the [catch] block empties and
    removes the frames directory. *)
Definition frames_route (req : Request) : M Response :=
  match req_file req with
  | None =>
    mret (mkResponse 400 (VObj [("message", VStr "No video file uploaded")]))
  | Some file =>
    let videoUrl := file_path file in
    let tempVideoPath := path_join "temp" (now_video dl +:+ "-video") in
    let tempFramesDir := path_join "temp" ("frames-" +:+ now_frames env) in
    try_catch
      (mkdir_if_missing "temp";;
       mkdir_if_missing tempFramesDir;;
       call (Fetch (VStr videoUrl)) (fetch_video dl);;
       write_file tempVideoPath [];;
       received ← lift (video_body dl);
       write_file tempVideoPath received;;
       meta ← call (Ffprobe tempVideoPath) (ffprobe_video env);
       match video_stream meta with
       | None => mthrow "No video stream found"
       | Some (width, height) =>
         let duration := video_duration meta in
         let settings := usedSettings rt (req_body req) in
         let framePattern :=
           path_join tempFramesDir
             ("frame-%03d." +:+ ToString rt (format settings)) in
         written ← call (FfmpegFrames tempVideoPath framePattern
                           (interval settings)) (ffmpeg_frames env);
         fold_left (fun acc name =>
                      acc;; write_file (path_join tempFramesDir name) [])
           written (mret tt);;
         listed ← readdirSync tempFramesDir;
         let files :=
           List.filter (fun f => ends_with f (ToString rt (format settings)))
             listed in
         let uploads := imap (upload_one env tempFramesDir settings) files in
         extractedFrames ← promise_all uploads;
         let videoFile :=
           VObj [("url", VStr videoUrl); ("duration", duration);
                 ("width", width); ("height", height);
                 ("format", VStr (file_mimetype file));
                 ("size", VNum (file_size file));
                 ("name", VStr (file_name file))] in
         unlink_if_exists tempVideoPath;;
         fold_left (cleanup_frame tempFramesDir) files (mret tt);;
         e ← existsSync tempFramesDir;
         when_ e (rmdirSync tempFramesDir);;
         mret (mkResponse 200
                 (VObj [("videoFile", videoFile);
                        ("frames", VArr (map value_of_frame extractedFrames));
                        ("settings", value_of_settings settings)]))
       end)
      (fun message =>
         unlink_if_exists tempVideoPath;;
         e ← existsSync tempFramesDir;
         when_ e (files ← readdirSync tempFramesDir;
                  fold_left (cleanup_frame tempFramesDir) files (mret tt);;
                  rmdirSync tempFramesDir);;
         mret (mkResponse 500 (failure_body message)))
  end.

End Routes.

(** The download answers with the bytes of the video. *)
Definition download_ok : Download :=
  mkDownload "1700000000002" (Ok tt) (Ok video_bytes).

(** The storage middleware has uploaded the video; its path is the URL. *)
Definition stored_file : UploadedFile :=
  mkUploadedFile "https://cdn.example/video" "video/mp4" 3%float "video".

Definition empty_world : World := mkWorld ∅ ∅ [].

(** * Properties *)

(** ** Order facts on binary64 numbers *)

Section FloatOrder.

Import Num.

Lemma SFcompare_trans x y z c1 c2 :
  SFcompare x y = Some c1 -> SFcompare y z = Some c2 ->
  cmp_le c1 = true -> cmp_le c2 = true ->
  exists c3, SFcompare x z = Some c3 /\ cmp_le c3 = true /\
             (c3 = Eq -> c1 = Eq /\ c2 = Eq).
Proof.
  destruct x as [sx|sx| |sx mx ex], y as [sy|sy| |sy my ey],
           z as [sz|sz| |sz mz ez]; simpl; try discriminate;
    intros H1 H2; injection H1 as <-; injection H2 as <-;
    try (destruct sx); try (destruct sy); try (destruct sz);
    simpl; try discriminate; intros L1 L2;
    try (eexists; split; [reflexivity|]; split; [reflexivity|];
         intros; try discriminate; auto; fail).
  all: change (Pos.compare_cont Eq) with Pos.compare in *.
  all: revert L1 L2;
    destruct (Z.compare_spec ex ey), (Z.compare_spec ey ez),
             (Z.compare_spec ex ez);
    try lia; subst; simpl; try discriminate;
    destruct (Pos.compare_spec mx my), (Pos.compare_spec my mz),
             (Pos.compare_spec mx mz);
    try lia; subst; simpl; try discriminate; intros _ _;
    (eexists; split; [reflexivity|]; split; [reflexivity|];
     intros; try discriminate; auto).
Qed.

Lemma SFcompare_flip x y c :
  SFcompare x y = Some c -> SFcompare y x = Some (CompOpp c).
Proof.
  destruct x as [sx|sx| |sx mx ex], y as [sy|sy| |sy my ey]; simpl;
    try discriminate; intros H; injection H as <-;
    try (destruct sx); try (destruct sy); simpl; try reflexivity.
  all: change (Pos.compare_cont Eq) with Pos.compare.
  all: rewrite (Z.compare_antisym ex ey), (Pos.compare_antisym mx my);
    destruct (ex ?= ey)%Z; simpl; try reflexivity;
    destruct (mx ?= my)%positive; reflexivity.
Qed.

Lemma SFcompare_some x y :
  SFcompare x x <> None -> SFcompare y y <> None ->
  exists c, SFcompare x y = Some c.
Proof.
  destruct x, y; simpl; try congruence; eauto.
Qed.

Lemma is_nan_compare x :
  is_nan x = false <-> SFcompare (Prim2SF x) (Prim2SF x) <> None.
Proof.
  unfold is_nan. rewrite FloatAxioms.eqb_spec. unfold SFeqb.
  destruct (SFcompare (Prim2SF x) (Prim2SF x)) as [c|] eqn:E.
  - split; [congruence|intros _].
    assert (c = CompOpp c) as Hc.
    { pose proof (SFcompare_flip _ _ _ E) as E'. congruence. }
    destruct c; simpl in Hc; try discriminate. reflexivity.
  - split; [discriminate|congruence].
Qed.

Lemma fle_compare x y :
  fle x y <-> exists c, SFcompare (Prim2SF x) (Prim2SF y) = Some c /\ cmp_le c = true.
Proof.
  unfold fle. rewrite leb_spec. unfold SFleb.
  destruct (SFcompare (Prim2SF x) (Prim2SF y)) as [[]|]; split;
    try discriminate; eauto.
  - intros (c & [= <-] & Hc). discriminate.
  - intros (c & [=] & _).
Qed.

Lemma fle_trans x y z : fle x y -> fle y z -> fle x z.
Proof.
  rewrite !fle_compare. intros (c1 & H1 & L1) (c2 & H2 & L2).
  destruct (SFcompare_trans _ _ _ _ _ H1 H2 L1 L2) as (c3 & H3 & L3 & _).
  eauto.
Qed.

Lemma fle_nonnan x y : fle x y -> is_nan x = false /\ is_nan y = false.
Proof.
  rewrite fle_compare, !is_nan_compare. intros (c & H & _).
  destruct (Prim2SF x), (Prim2SF y); simpl in *; try discriminate;
    split; congruence.
Qed.

Lemma fle_refl x : is_nan x = false -> fle x x.
Proof.
  rewrite is_nan_compare, fle_compare. intros H.
  destruct (SFcompare (Prim2SF x) (Prim2SF x)) as [c|] eqn:E; [|congruence].
  pose proof (SFcompare_flip _ _ _ E) as E'. exists c. split; [done|].
  rewrite E in E'. injection E' as E'. by destruct c.
Qed.

Lemma flt_fle x y : (x <? y)%float = true -> fle x y.
Proof.
  rewrite ltb_spec, fle_compare. unfold SFltb.
  destruct (SFcompare (Prim2SF x) (Prim2SF y)) as [[]|]; try discriminate.
  eauto.
Qed.

Lemma fle_total x y :
  is_nan x = false -> is_nan y = false -> (x <? y)%float = false -> fle y x.
Proof.
  rewrite !is_nan_compare, ltb_spec, fle_compare. unfold SFltb.
  intros Hx Hy. destruct (SFcompare_some _ _ Hx Hy) as [c E]. rewrite E.
  rewrite (SFcompare_flip _ _ _ E). intros Hc. eexists. split; [done|].
  by destruct c.
Qed.

Lemma fle_antisym x y : fle x y -> fle y x -> (x =? y)%float = true.
Proof.
  rewrite !fle_compare, FloatAxioms.eqb_spec. unfold SFeqb.
  intros (c1 & H1 & L1) (c2 & H2 & L2). rewrite H1.
  rewrite (SFcompare_flip _ _ _ H1) in H2. injection H2 as <-.
  by destruct c1.
Qed.

Lemma Math_max_bounds a b :
  is_nan a = false -> is_nan b = false ->
  fle a (Math_max a b) /\ fle b (Math_max a b) /\
  (Math_max a b = a \/ Math_max a b = b).
Proof.
  intros Ha Hb. unfold Math_max. rewrite Ha, Hb. simpl.
  destruct (a <? b)%float eqn:Hab.
  { split; [by apply flt_fle|]. split; [by apply fle_refl|]. by right. }
  destruct (b <? a)%float eqn:Hba.
  { split; [by apply fle_refl|]. split; [by apply flt_fle|]. by left. }
  pose proof (fle_total _ _ Ha Hb Hab). pose proof (fle_total _ _ Hb Ha Hba).
  destruct (classify a);
    (split; [first [by apply fle_refl|done]|]);
    (split; [first [by apply fle_refl|done]|]); auto.
Qed.

End FloatOrder.

(** ** The frame categorizer *)

Section Categorizer.

Import Num.

Lemma bucket_push_bucket c k' f k :
  bucket (push_bucket c k' f) k =
  if decide (k' = k) then bucket c k ++ [f] else bucket c k.
Proof. destruct c, k', k; reflexivity. Qed.

Lemma maxTimestamp_push_bucket c k f :
  maxTimestamp (push_bucket c k f) = maxTimestamp c.
Proof. destruct c, k; reflexivity. Qed.

Lemma forEach_buckets mx frames : forall c k,
  bucket (fold_left (categorize_step mx) frames c) k =
  bucket c k ++ filter (fun f => frame_segment mx f = k) frames.
Proof.
  induction frames as [|f frames IH]; intros c k; simpl.
  - by rewrite app_nil_r.
  - rewrite IH. unfold categorize_step. rewrite bucket_push_bucket.
    rewrite filter_cons. fold (frame_segment mx f).
    destruct (decide (frame_segment mx f = k)); [|done].
    by rewrite <- app_assoc.
Qed.

Lemma forEach_maxTimestamp mx frames : forall c,
  maxTimestamp (fold_left (categorize_step mx) frames c) = maxTimestamp c.
Proof.
  induction frames as [|f frames IH]; intros c; simpl; [done|].
  rewrite IH. apply maxTimestamp_push_bucket.
Qed.

Lemma reduce_max_spec frames : forall acc,
  is_nan acc = false ->
  Forall (fun f => is_nan (timestamp f) = false) frames ->
  let r := fold_left (fun max f => Math_max max (timestamp f)) frames acc in
  fle acc r /\ (forall f, f ∈ frames -> fle (timestamp f) r) /\
  (r = acc \/ exists f, f ∈ frames /\ r = timestamp f).
Proof.
  induction frames as [|f frames IH]; intros acc Hacc Hall; simpl.
  - split; [by apply fle_refl|]. split; [|by left].
    intros f Hf. by apply elem_of_nil in Hf.
  - apply Forall_cons in Hall as [Hf Hall].
    destruct (Math_max_bounds acc (timestamp f) Hacc Hf) as (B1 & B2 & B3).
    assert (is_nan (Math_max acc (timestamp f)) = false) as Hn
      by (destruct B3 as [-> | ->]; done).
    destruct (IH _ Hn Hall) as (I1 & I2 & I3).
    split; [by eapply fle_trans|]. split.
    + intros g [-> | Hg]%elem_of_cons; [by eapply fle_trans|by apply I2].
    + destruct I3 as [-> | (g & Hg & ->)].
      * destruct B3 as [-> | ->]; [by left|]. right. exists f.
        split; [apply elem_of_cons; by left|done].
      * right. exists g. split; [apply elem_of_cons; by right|done].
Qed.

Lemma perm_insert {A} (a : A) (l1 l2 l : list A) :
  l1 ++ l2 ≡ₚ l -> l1 ++ a :: l2 ≡ₚ a :: l.
Proof. intros <-. symmetry. apply Permutation_middle. Qed.

(** Filtering a list by each of the five segment keys and concatenating the
    results rearranges the list, nothing more. *)
Lemma five_way_permutation {A} (seg : A -> Segment) (l : list A) :
  filter (fun x => seg x = Opening) l ++ filter (fun x => seg x = Setup) l ++
  filter (fun x => seg x = Main) l ++ filter (fun x => seg x = Climax) l ++
  filter (fun x => seg x = Closing) l ≡ₚ l.
Proof.
  induction l as [|a l IH]; [done|].
  rewrite !filter_cons.
  destruct (seg a) eqn:E; repeat case_decide; try congruence;
    rewrite <- ?app_comm_cons;
    first [ apply perm_skip; exact IH
          | rewrite !app_assoc; apply perm_insert;
            rewrite <- !app_assoc; exact IH ].
Qed.

(** The categorizer example: maximum 10, percentages 0, 10, 50, 90, 100. *)
Example categorizeFrames_example :
  let c := categorizeFrames frames_example in
  maxTimestamp c = 10%float /\
  map timestamp (opening c) = [0; 1]%float /\ setup c = [] /\
  map timestamp (main c) = [5%float] /\ map timestamp (climax c) = [9%float] /\
  map timestamp (closing c) = [10%float].
Proof. vm_compute. auto 10. Qed.

(** When every timestamp is [+0] the maximum is 0, every percentage is
    [0 / 0 * 100 = NaN], no [<=] test succeeds and every frame is pushed on
    the closing bucket. *)
Lemma categorizeFrames_all_zero (frames : list Frame) :
  frames <> [] -> Forall (fun f => timestamp f = 0%float) frames ->
  categorizeFrames frames = mkCategories [] [] [] [] frames 0%float.
Proof.
  intros Hne Hz. unfold categorizeFrames. case_decide as Hlen.
  { by apply nil_length_inv in Hlen. }
  assert (fold_left (fun max f => Math_max max (timestamp f)) frames 0%float
          = 0%float) as ->.
  { clear Hne Hlen. induction Hz as [|f l Hf _ IH]; simpl; [done|].
    by rewrite Hf. }
  assert (forall acc, fold_left (categorize_step 0) frames
                        (mkCategories [] [] [] [] acc 0%float)
                      = mkCategories [] [] [] [] (acc ++ frames) 0%float) as H.
  { clear Hne Hlen. induction Hz as [|f l Hf _ IH]; intros acc;
      cbn [fold_left].
    - by rewrite app_nil_r.
    - replace (categorize_step 0 (mkCategories [] [] [] [] acc 0%float) f)
        with (mkCategories [] [] [] [] (push acc f) 0%float)
        by (unfold categorize_step; rewrite Hf; reflexivity).
      rewrite IH. unfold push. by rewrite <- app_assoc. }
  apply H.
Qed.

(** C1, evaluated on the code: for the single frame at timestamp 0 the
    maximum is 0, the percentage is [0 / 0 * 100 = NaN], every [<=] test
    fails and the frame lands in the closing bucket, while the opening
    bucket stays empty. *)
Theorem categorizeFrames_zero_max_closing :
  maxTimestamp (categorizeFrames [frame0]) = 0%float /\
  (timestamp frame0 / maxTimestamp (categorizeFrames [frame0]) * 100
   <=? 10)%float = false /\
  opening (categorizeFrames [frame0]) = [] /\
  closing (categorizeFrames [frame0]) = [frame0].
Proof. vm_compute. auto. Qed.

(** C2: for frames with timestamps [>= 0], each of the five buckets is the
    input filtered by one classifier of frames (so the buckets partition the
    input, keep its order, and neither drop nor duplicate a frame: their
    concatenation is a permutation of the input); for a non-empty input the
    returned [maxTimestamp] bounds every timestamp and is the timestamp of
    some frame; for the empty input the buckets are empty and
    [maxTimestamp] is 0. *)
Theorem categorizeFrames_partition_max (frames : list Frame) :
  Forall (fun f => fle 0 (timestamp f)) frames ->
  let c := categorizeFrames frames in
  (exists seg : Frame -> Segment,
     forall k, bucket c k = filter (fun f => seg f = k) frames) /\
  opening c ++ setup c ++ main c ++ climax c ++ closing c ≡ₚ frames /\
  (frames = [] -> c = mkCategories [] [] [] [] [] 0%float) /\
  (frames <> [] ->
     (forall f, f ∈ frames -> fle (timestamp f) (maxTimestamp c)) /\
     (exists f, f ∈ frames /\ (timestamp f =? maxTimestamp c)%float = true)).
Proof.
  intros Hpos c.
  assert (exists seg : Frame -> Segment,
             forall k, bucket c k = filter (fun f => seg f = k) frames)
    as [seg Hseg].
  { subst c. unfold categorizeFrames. case_decide as Hlen.
    - exists (fun _ => Opening). apply nil_length_inv in Hlen as ->.
      by intros [].
    - eexists. intros k. rewrite forEach_buckets. by destruct k. }
  split; [by exists seg|]. split.
  { pose proof (five_way_permutation seg frames) as P.
    rewrite <- !Hseg in P. exact P. }
  split; [by intros ->|]. intros Hne.
  assert (maxTimestamp c =
          fold_left (fun max f => Math_max max (timestamp f)) frames 0%float)
    as ->.
  { subst c. unfold categorizeFrames. case_decide as Hlen.
    - by apply nil_length_inv in Hlen.
    - by rewrite forEach_maxTimestamp. }
  assert (Forall (fun f => is_nan (timestamp f) = false) frames) as Hnan.
  { eapply Forall_impl; [exact Hpos|]. intros f Hf. simpl. by apply fle_nonnan in Hf as [_ ?]. }
  destruct (reduce_max_spec frames 0%float eq_refl Hnan) as (H0 & Hub & Hatt).
  split; [exact Hub|]. destruct Hatt as [Hz | (f & Hf & ->)].
  - destruct frames as [|f frames]; [done|]. exists f.
    split; [apply elem_of_cons; by left|].
    apply fle_antisym; [apply Hub, elem_of_cons; by left|].
    rewrite Hz. by apply Forall_cons in Hpos as [? _].
  - exists f. split; [done|].
    assert (is_nan (timestamp f) = false) as Hn
      by (by eapply Forall_forall in Hnan).
    apply fle_antisym; by apply fle_refl.
Qed.

Lemma categorizeFrames_partition_max_witness :
  let c := categorizeFrames frames_example in
  (exists seg : Frame -> Segment,
     forall k, bucket c k = filter (fun f => seg f = k) frames_example) /\
  opening c ++ setup c ++ main c ++ climax c ++ closing c ≡ₚ frames_example /\
  (frames_example = [] -> c = mkCategories [] [] [] [] [] 0%float) /\
  (frames_example <> [] ->
     (forall f, f ∈ frames_example -> fle (timestamp f) (maxTimestamp c)) /\
     (exists f, f ∈ frames_example /\
                (timestamp f =? maxTimestamp c)%float = true)).
Proof.
  apply (categorizeFrames_partition_max frames_example).
  repeat constructor.
Defined.

End Categorizer.

(** ** The transcript splitter *)

Section Splitter.

Lemma slice_take_drop {A} (l : list A) (cursor n : nat) :
  Js.slice l cursor (cursor + n) = take n (drop cursor l).
Proof.
  unfold Js.slice. change (@firstn A) with (@take A).
  change (@skipn A) with (@drop A).
  destruct (decide (cursor + n <= length l)) as [Hle|Hgt].
  - replace (Nat.min cursor (length l)) with cursor by lia.
    replace (Nat.min (cursor + n) (length l)) with (cursor + n) by lia.
    f_equal. lia.
  - destruct (decide (cursor <= length l)) as [Hc|Hc].
    + replace (Nat.min cursor (length l)) with cursor by lia.
      replace (Nat.min (cursor + n) (length l)) with (length l) by lia.
      rewrite !take_ge; [done| |]; rewrite length_drop; lia.
    + replace (Nat.min cursor (length l)) with (length l) by lia.
      rewrite (drop_ge l cursor) by lia. rewrite drop_all.
      by rewrite !take_nil.
Qed.

(** [split] gives one empty piece for the empty string, which holds no
    word. *)
Example split_empty_string :
  Js.split space "" = [""] /\ word_count "" = 0 /\ word_count "a  b" = 2.
Proof. repeat split; reflexivity. Qed.

(** Ten words over buckets of 1, 1, 2, 0 and 0 frames: takes 2, 2, 5, 0, 0. *)
Example split_ten_words :
  let parts := splitTranscript "a b c d e f g h i j"
                 (categories_of_counts 1 1 2 0 0) in
  parts !! "opening" = Some "a b" /\ parts !! "setup" = Some "c d" /\
  parts !! "main" = Some "e f g h i" /\ parts !! "climax" = Some "" /\
  parts !! "closing" = Some "" /\
  parts !! "general" = Some "a b c d e f g h i j".
Proof. vm_compute. auto 10. Qed.

(** No frame at all: every segment is empty and [general] is the
    transcript. *)
Example split_no_frames :
  let parts := splitTranscript "a b c" (categorizeFrames []) in
  parts !! "opening" = Some "" /\ parts !! "closing" = Some "" /\
  parts !! "general" = Some "a b c".
Proof. vm_compute. auto. Qed.

(** The take is computed on binary64 numbers: [1 / 49 * 49] is just below
    1 and its floor is 0. *)
Example take_count_rounds : take_count 1 49 49 = 0 /\ take_count 1 4 10 = 2.
Proof. vm_compute. auto. Qed.

Lemma split_not_nil sep s : Js.split sep s <> [].
Proof.
  destruct s as [|c s]; simpl; [done|].
  destruct (Ascii.eqb c sep); [done|]. by destruct (Js.split sep s).
Qed.

Lemma split_no_sep sep s :
  Forall (fun w => Js.has_char sep w = false) (Js.split sep s).
Proof.
  induction s as [|c s IH]; simpl; [by repeat constructor|].
  destruct (Ascii.eqb c sep) eqn:E; [by constructor|].
  destruct (Js.split sep s) as [|w ws]; [repeat constructor; simpl; by rewrite E|].
  apply Forall_cons in IH as [Hw Hws]. constructor; [|done].
  simpl. by rewrite E, Hw.
Qed.

Lemma split_word sep w :
  Js.has_char sep w = false -> Js.split sep w = [w].
Proof.
  induction w as [|c w IH]; simpl; [done|].
  intros [E Hw]%orb_false_iff. rewrite E, (IH Hw). done.
Qed.

Lemma split_word_sep sep w s :
  Js.has_char sep w = false ->
  Js.split sep (w +:+ String sep s) = w :: Js.split sep s.
Proof.
  induction w as [|c w IH]; simpl.
  - intros _. by rewrite Ascii.eqb_refl.
  - intros [E Hw]%orb_false_iff. by rewrite E, (IH Hw).
Qed.

Lemma split_join sep l :
  l <> [] -> Forall (fun w => Js.has_char sep w = false) l ->
  Js.split sep (Js.join (String sep "") l) = l.
Proof.
  induction l as [|w l IH]; [done|]. intros _ [Hw Hl]%Forall_cons.
  destruct l as [|w' l].
  - simpl. by apply split_word.
  - change (Js.join (String sep "") (w :: w' :: l))
      with (w +:+ String sep (Js.join (String sep "") (w' :: l))).
    rewrite split_word_sep by done. f_equal. by apply IH.
Qed.

(** The words of a joined run are its non-empty elements. *)
Lemma word_count_join l :
  Forall (fun w => Js.has_char space w = false) l ->
  word_count (Js.join " " l) = nonempty_count l.
Proof.
  intros Hl. unfold word_count. destruct l as [|w l]; [done|].
  change " "%string with (String space ""). by rewrite split_join.
Qed.

Lemma nonempty_count_app l1 l2 :
  nonempty_count (l1 ++ l2) = nonempty_count l1 + nonempty_count l2.
Proof. unfold nonempty_count. by rewrite filter_app, length_app. Qed.

Lemma nonempty_count_take n l : nonempty_count (take n l) <= nonempty_count l.
Proof.
  rewrite <- (take_drop n l) at 2. rewrite nonempty_count_app. lia.
Qed.

(** Consecutive runs of a list add up to one run. *)
Lemma nonempty_count_runs (l : list string) (c n m : nat) :
  nonempty_count (take n (drop c l)) + nonempty_count (take m (drop (c + n) l))
  = nonempty_count (take (n + m) (drop c l)).
Proof.
  rewrite <- nonempty_count_app, <- (drop_drop l n c). by rewrite take_take_drop.
Qed.

Lemma five_runs (l : list string) (a b c d e : nat) :
  nonempty_count (take a (drop 0 l)) + nonempty_count (take b (drop a l)) +
  nonempty_count (take c (drop (a + b) l)) +
  nonempty_count (take d (drop (a + b + c) l)) +
  nonempty_count (take e (drop (a + b + c + d) l)) <= nonempty_count l.
Proof.
  pose proof (nonempty_count_runs l 0 a b) as H1.
  pose proof (nonempty_count_runs l 0 (a + b) c) as H2.
  pose proof (nonempty_count_runs l 0 (a + b + c) d) as H3.
  pose proof (nonempty_count_runs l 0 (a + b + c + d) e) as H4.
  pose proof (nonempty_count_take (a + b + c + d + e) l) as H5.
  cbn [Nat.add] in *. change (drop 0 l) with l in *. lia.
Qed.

(** The object [splitTranscript] returns when some bucket holds a frame. *)
Lemma splitTranscript_unfold (transcript : string)
    (categories : CategorizedFrames) :
  let n k := length (bucket categories k) in
  let total := n Opening + n Setup + n Main + n Climax + n Closing in
  let words := Js.split space transcript in
  let t k := take_count (n k) total (length words) in
  let seg c k := Js.join " " (take (t k) (drop c words)) in
  total <> 0 ->
  splitTranscript transcript categories =
  <["general" := transcript]>
    (<["closing" := seg (t Opening + t Setup + t Main + t Climax) Closing]>
    (<["climax" := seg (t Opening + t Setup + t Main) Climax]>
    (<["main" := seg (t Opening + t Setup) Main]>
    (<["setup" := seg (t Opening) Setup]>
    (<["opening" := seg 0 Opening]> ∅))))).
Proof.
  intros n total words t seg Ht. unfold splitTranscript.
  change (length (opening categories) + length (setup categories) +
          length (main categories) + length (climax categories) +
          length (closing categories)) with total.
  case_decide; [done|].
  cbn [fold_left split_step segment_name]. by rewrite !slice_take_drop.
Qed.

Lemma splitTranscript_no_frames (transcript : string)
    (categories : CategorizedFrames) :
  length (opening categories) + length (setup categories) +
  length (main categories) + length (climax categories) +
  length (closing categories) = 0 ->
  splitTranscript transcript categories =
  <["opening" := ""]> (<["setup" := ""]> (<["main" := ""]>
    (<["climax" := ""]> (<["closing" := ""]>
      (<["general" := transcript]> ∅))))).
Proof. intros Ht. unfold splitTranscript. by case_decide. Qed.


(** C4: the five segment strings of [splitTranscript] hold together at most
    as many words as the transcript, and [general] is the transcript
    itself, whether or not any bucket holds a frame. *)
Theorem splitTranscript_word_counts (transcript : string)
    (categories : CategorizedFrames) :
  let parts := splitTranscript transcript categories in
  parts !! "general" = Some transcript /\
  exists o s m c cl : string,
    parts !! "opening" = Some o /\ parts !! "setup" = Some s /\
    parts !! "main" = Some m /\ parts !! "climax" = Some c /\
    parts !! "closing" = Some cl /\
    word_count o + word_count s + word_count m + word_count c + word_count cl
    <= word_count transcript.
Proof.
  intros parts. subst parts.
  destruct (decide (length (opening categories) + length (setup categories) +
                    length (main categories) + length (climax categories) +
                    length (closing categories) = 0)) as [Ht|Ht].
  - rewrite splitTranscript_no_frames by exact Ht.
    split; [done|]. exists "", "", "", "", "".
    repeat (split; [done|]). change (word_count "") with 0. lia.
  - rewrite (splitTranscript_unfold transcript categories Ht).
    split; [done|]. do 5 eexists. repeat (split; [done|]).
    pose proof (split_no_sep space transcript) as Hw.
    rewrite !word_count_join by (by apply Forall_take, Forall_drop).
    apply five_runs.
Qed.

End Splitter.

(** ** The result validators *)

Section Validators.

Lemma accepts_Ok v : accepts (Ok v) <-> truthy v = true.
Proof.
  split; [intros (? & [= <-] & ?); done|]. intros H. by exists v.
Qed.

Lemma accepts_Throw e : ~ accepts (Throw e).
Proof. by intros (? & ? & ?). Qed.

Lemma accepts_and_then a b :
  accepts (and_then a b) <-> accepts a /\ accepts (b tt).
Proof.
  destruct a as [x|e]; simpl.
  - rewrite accepts_Ok. destruct (truthy x) eqn:E; [tauto|].
    rewrite accepts_Ok. split; [congruence|]. intros [? _]. congruence.
  - split; [intros ?%accepts_Throw|intros [?%accepts_Throw _]]; done.
Qed.

Lemma typeof_boolean v :
  String.eqb (typeof v) "boolean" = true <-> exists b, v = VBool b.
Proof. destruct v; simpl; split; try done; eauto; by intros [? ?]. Qed.

Lemma typeof_string v :
  String.eqb (typeof v) "string" = true <-> exists s, v = VStr s.
Proof. destruct v; simpl; split; try done; eauto; by intros [? ?]. Qed.

Lemma forallb_Forall {A} (p : A -> bool) (P : A -> Prop) (l : list A) :
  (forall x, p x = true <-> P x) -> forallb p l = true <-> Forall P l.
Proof.
  intros Hp. induction l as [|x l IH]; simpl; [by split|].
  rewrite andb_true_iff, Forall_cons, Hp, IH. done.
Qed.

Lemma forallb_fmap {A B} (f : A -> B) (p : B -> bool) (l : list A) :
  forallb p (map f l) = forallb (fun x => p (f x)) l.
Proof. induction l as [|x l IH]; simpl; [done|]. by rewrite IH. Qed.

Example isResultItem_examples :
  isResultItem item_ok = Ok (VBool true) /\
  isResultItem item_wrong_element = Ok (VBool false) /\
  isResultItem VNull = Ok VNull /\
  isAssessmentIndicator (VObj []) = Ok (VBool true) /\
  isAssessmentIndicator (VArr []) = Ok (VBool false).
Proof. repeat split; reflexivity. Qed.

Lemma isAssessmentIndicator_total obj : exists b, isAssessmentIndicator obj = Ok (VBool b).
Proof. destruct obj; simpl; eauto. Qed.

Lemma isAssessmentIndicator_shape x :
  accepts (isAssessmentIndicator x) <-> Shape.AssessmentIndicator x.
Proof.
  unfold Shape.AssessmentIndicator.
  unfold isAssessmentIndicator.
  destruct x; simpl; rewrite accepts_Ok; simpl;
    try (split; [done|by intros (? & ? & ?)]).
  rewrite forallb_fmap.
  rewrite (forallb_Forall _ (fun kv => exists b, kv.2 = VBool b)).
  - split; [eauto|]. by intros (? & [= <-] & ?).
  - intros [k v]. apply typeof_boolean.
Qed.

Lemma ResultItem_undefined : ~ Shape.ResultItem VUndefined.
Proof. by intros [(? & ? & _) _]. Qed.

(** Reading one of the validators' property names off a truthy value. *)
Lemma get_prop_truthy x name :
  truthy x = true -> String.eqb name "length" = false ->
  get_prop x name = Ok (Shape.field x name).
Proof. destruct x; simpl; try done; by intros _ ->. Qed.

Lemma ResultItem_truthy x : Shape.ResultItem x -> truthy x = true.
Proof.
  intros [(items & H & _) _]. destruct x; simpl in *; congruence.
Qed.

Lemma isResultItem_shape x :
  accepts (isResultItem x) <-> Shape.ResultItem x.
Proof.
  unfold isResultItem. rewrite !accepts_and_then, accepts_Ok.
  destruct (truthy x) eqn:Hx.
  2:{ split; [intros [? _]; done|]. intros ?%ResultItem_truthy. congruence. }
  rewrite !(get_prop_truthy x) by done. simpl.
  rewrite accepts_Ok, isAssessmentIndicator_shape. unfold Shape.ResultItem.
  destruct (Shape.field x "recomendations") as [| | | | |items|] eqn:Hf; simpl;
    try (split; [intros (_ & ? & _); by try apply accepts_Throw in H
                |by intros [(? & ? & _) _]]).
  rewrite accepts_Ok. simpl.
  rewrite (forallb_Forall _ (fun r => exists s, r = VStr s))
    by apply typeof_string.
  split.
  - intros (_ & _ & ? & ?). eauto.
  - intros [(? & [= <-] & ?) ?]. done.
Qed.

Lemma get_prop_opt_truthy x name :
  truthy x = true -> String.eqb name "length" = false ->
  get_prop_opt x name = Ok (Shape.field x name).
Proof. destruct x; simpl; try done; by intros _ ->. Qed.

Lemma AssessmentDocument_truthy x : Shape.AssessmentDocument x -> truthy x = true.
Proof.
  intros (_ & H & _). destruct x; simpl in *; try done;
    by apply ResultItem_undefined in H.
Qed.

Lemma summary_is_string g :
  accepts (result_bind (get_prop_opt g "summary") (fun s =>
             Ok (VBool (String.eqb (typeof s) "string")))) <->
  exists s, Shape.field g "summary" = VStr s.
Proof.
  destruct g; simpl; rewrite accepts_Ok; simpl;
    try (split; [done|by intros [? ?]]).
  apply typeof_string.
Qed.

Lemma isOpenAIResponseResult_shape x :
  accepts (isOpenAIResponseResult x) <-> Shape.AssessmentDocument x.
Proof.
  unfold isOpenAIResponseResult. rewrite !accepts_and_then, accepts_Ok.
  destruct (truthy x) eqn:Hx.
  2:{ split; [intros [? _]; done|].
      intros ?%AssessmentDocument_truthy. congruence. }
  rewrite !(get_prop_opt_truthy x) by done. simpl.
  rewrite !isResultItem_shape, accepts_Ok, summary_is_string.
  unfold Shape.AssessmentDocument. split.
  - intros (_ & Ho & Hs & Hm & Hc & Hcl & _ & Hg & Hsum).
    split; [by intros []|done].
  - intros (Hk & Hg & Hsum).
    pose proof (Hk Opening). pose proof (Hk Setup). pose proof (Hk Main).
    pose proof (Hk Climax). pose proof (Hk Closing).
    repeat (split; [done|]). split; [|done]. by apply ResultItem_truthy.
Qed.

Lemma and_then_total a b :
  (exists v, a = Ok v) -> (exists v, b tt = Ok v) ->
  exists v, and_then a b = Ok v.
Proof.
  intros [x ->] [y Hy]. simpl. destruct (truthy x); eauto.
Qed.

Lemma isResultItem_total obj : exists v, isResultItem obj = Ok v.
Proof.
  unfold isResultItem.
  destruct obj as [| |[]|x|s|items|props]; simpl; eauto.
  - destruct (negb (Num.falsy x)); simpl; eauto.
  - destruct (negb (String.eqb s "")); simpl; eauto.
  - destruct (own_property props "recomendations"); simpl; eauto.
    destruct (forallb _ _); simpl; eauto.
    destruct (isAssessmentIndicator_total
                (own_property props "assessmentIndicators")) as [b ->]. eauto.
Qed.

(** C5: each validator accepts exactly the values of the shape the
    specification gives: an indicator mapping is a non-array, non-null
    object whose values are all boolean; a result item has an array of
    strings as [recomendations] and an indicator mapping as
    [assessmentIndicators]; a document has result items in its five segment
    fields and in [general], whose [summary] is a string.  The item with no
    recommendation and no indicator is accepted. *)
Theorem validators_are_shape_predicates :
  (forall x, accepts (isAssessmentIndicator x) <-> Shape.AssessmentIndicator x) /\
  (forall x, accepts (isResultItem x) <-> Shape.ResultItem x) /\
  (forall x, accepts (isOpenAIResponseResult x) <-> Shape.AssessmentDocument x) /\
  isResultItem empty_item = Ok (VBool true).
Proof.
  split; [exact isAssessmentIndicator_shape|].
  split; [exact isResultItem_shape|].
  split; [exact isOpenAIResponseResult_shape|]. reflexivity.
Qed.

(** C6: on every value, [undefined] included, the three validators return
    a value and do not throw; being functions of their argument alone,
    their results depend on nothing else. *)
Theorem validators_never_throw (x : value) :
  (exists b, isAssessmentIndicator x = Ok (VBool b)) /\
  (exists v, isResultItem x = Ok v) /\
  (exists v, isOpenAIResponseResult x = Ok v).
Proof.
  split; [apply isAssessmentIndicator_total|].
  split; [apply isResultItem_total|].
  unfold isOpenAIResponseResult.
  destruct (truthy x) eqn:Hx; [|unfold and_then; simpl; rewrite Hx; eauto].
  rewrite !(get_prop_opt_truthy x) by done.
  repeat (apply and_then_total;
          [simpl; eauto using isResultItem_total|]).
  simpl. destruct (Shape.field x "general"); simpl; eauto.
Qed.

End Validators.

(** ** Extraction settings *)

Section SettingsFacts.

Variable rt : Runtime.

Lemma or_default_not_falsy x d :
  Num.falsy d = false -> Num.falsy (Num.or_default x d) = false.
Proof. unfold Num.or_default. by destruct (Num.falsy x) eqn:E. Qed.

(** C10: a setting that is falsy after numeric coercion (0, NaN) is
    replaced by 0.8, a falsy format by "jpeg", and any other setting is
    used as coerced; so the interval that multiplies the frame index is
    neither 0 nor NaN.  Settings of [0] and the empty string, and missing
    settings, give the three defaults. *)
Theorem usedSettings_defaults (settings : Settings) :
  let u := usedSettings rt settings in
  let i := ToNumber rt (s_interval settings) in
  let q := ToNumber rt (s_quality settings) in
  interval u = (if Num.falsy i then default_number else i) /\
  quality u = (if Num.falsy q then default_number else q) /\
  format u = (if truthy (s_format settings) then s_format settings
              else VStr "jpeg") /\
  (interval u =? 0)%float = false /\ is_nan (interval u) = false /\
  (forall idx, frame_timestamp u idx = (Js.of_nat idx * interval u)%float) /\
  usedSettings rt (mkSettings (VNum 0) (VStr "") (VNum 0))
  = mkUsedSettings default_number (VStr "jpeg") default_number /\
  usedSettings rt (mkSettings VUndefined VUndefined VUndefined)
  = mkUsedSettings default_number (VStr "jpeg") default_number.
Proof.
  intros u i q. repeat (split; [reflexivity|]).
  assert (Num.falsy (interval u) = false) as [H0 Hn]%orb_false_iff
    by (by apply or_default_not_falsy).
  repeat (split; [done|]). split; reflexivity.
Qed.

End SettingsFacts.

(** ** The pipeline *)

Section Footprints.

Variable rt : Runtime.
Variable env : Env.

Lemma bind_run {A B} (m : M A) (f : A -> M B) (w : World) :
  (m ≫= f) w =
  match m w with
  | (Ok a, w') => f a w'
  | (Throw e, w') => (Throw e, w')
  end.
Proof. reflexivity. Qed.

(** *** Leaving the records alone *)

Lemma keeps_db_ret {A} (a : A) : keeps_db (mret a).
Proof. by intros w. Qed.

Lemma keeps_db_throw {A} (e : string) : keeps_db (mthrow e : M A).
Proof. by intros w. Qed.

Lemma keeps_db_lift {A} (r : result A) : keeps_db (lift r).
Proof. by intros w. Qed.

Lemma keeps_db_call {A} ev (o : result A) : keeps_db (call ev o).
Proof. by intros w. Qed.

Lemma keeps_db_get_files : keeps_db get_files.
Proof. by intros w. Qed.

Lemma keeps_db_set_files fs : keeps_db (set_files fs).
Proof. by intros w. Qed.

Lemma keeps_db_get_db : keeps_db get_db.
Proof. by intros w. Qed.

Lemma keeps_db_bind {A B} (m : M A) (f : A -> M B) :
  keeps_db m -> (forall a, keeps_db (f a)) -> keeps_db (m ≫= f).
Proof.
  intros Hm Hf w. rewrite bind_run. specialize (Hm w).
  destruct (m w) as [[a|e] w1]; simpl in *; [|done].
  by rewrite Hf.
Qed.

Lemma keeps_db_when b (m : M unit) : keeps_db m -> keeps_db (when_ b m).
Proof. destruct b; [done|]. intros _. apply keeps_db_ret. Qed.

Lemma keeps_db_promise_all2 {A B} (a : M A) (b : M B) :
  keeps_db a -> keeps_db b -> keeps_db (promise_all2 a b).
Proof.
  intros Ha Hb w. unfold promise_all2. specialize (Ha w).
  destruct (a w) as [ra w1]. specialize (Hb w1).
  destruct (b w1) as [rb w2]. simpl in *.
  destruct ra, rb; simpl; congruence.
Qed.

Lemma keeps_db_promise_all {A} (tasks : list (M A)) :
  Forall keeps_db tasks -> keeps_db (promise_all tasks).
Proof.
  induction 1 as [|t ts Ht _ IH]; [apply keeps_db_ret|].
  intros w. simpl. specialize (Ht w). destruct (t w) as [r w1].
  specialize (IH w1). destruct (promise_all ts w1) as [rs w2]. simpl in *.
  destruct r, rs; simpl; congruence.
Qed.

Lemma keeps_db_fold {X} (step : M unit -> X -> M unit) (l : list X) :
  (forall acc x, keeps_db acc -> keeps_db (step acc x)) ->
  forall init, keeps_db init -> keeps_db (fold_left step l init).
Proof.
  intros Hstep. induction l as [|x l IH]; intros init Hinit; simpl; auto.
Qed.

Create HintDb keeps.

#[local] Hint Resolve keeps_db_ret keeps_db_throw keeps_db_lift keeps_db_call
  keeps_db_get_files keeps_db_set_files keeps_db_get_db keeps_db_bind
  keeps_db_when keeps_db_promise_all2 : keeps.

#[local] Hint Extern 2 (keeps_db (match ?x with _ => _ end)) =>
  destruct x : keeps.

Ltac keeps := intros; auto 20 with keeps.

Lemma keeps_db_existsSync path : keeps_db (existsSync path).
Proof. unfold existsSync. keeps. Qed.

Lemma keeps_db_unlinkSync path : keeps_db (unlinkSync path).
Proof. unfold unlinkSync. keeps. Qed.

Lemma keeps_db_mkdirSync path : keeps_db (mkdirSync path).
Proof. unfold mkdirSync. keeps. Qed.

Lemma keeps_db_readdirSync path : keeps_db (readdirSync path).
Proof. unfold readdirSync. keeps. Qed.

Lemma keeps_db_rmdirSync path : keeps_db (rmdirSync path).
Proof. unfold rmdirSync. keeps. Qed.

Lemma keeps_db_write_file path bytes : keeps_db (write_file path bytes).
Proof. unfold write_file. keeps. Qed.

#[local] Hint Resolve keeps_db_existsSync keeps_db_unlinkSync
  keeps_db_mkdirSync keeps_db_readdirSync keeps_db_rmdirSync
  keeps_db_write_file : keeps.

Lemma keeps_db_unlink_if_exists path : keeps_db (unlink_if_exists path).
Proof. unfold unlink_if_exists. keeps. Qed.

Lemma keeps_db_mkdir_if_missing path : keeps_db (mkdir_if_missing path).
Proof. unfold mkdir_if_missing. keeps. Qed.

#[local] Hint Resolve keeps_db_unlink_if_exists keeps_db_mkdir_if_missing : keeps.

Lemma Forall_imap {X Y} (P : Y -> Prop) (g : nat -> X -> Y) (l : list X) :
  (forall i x, P (g i x)) -> Forall P (imap g l).
Proof.
  revert g. induction l as [|x l IH]; intros g Hg; simpl; [done|].
  constructor; [done|]. apply IH. intros i y. apply Hg.
Qed.

Lemma keeps_db_extractAndUploadAudio path :
  keeps_db (extractAndUploadAudio env path).
Proof. unfold extractAndUploadAudio. keeps. Qed.

Lemma keeps_db_uploads dir used (names : list string) :
  keeps_db (promise_all (imap (upload_one env dir used) names)).
Proof.
  apply keeps_db_promise_all, Forall_imap.
  intros. unfold upload_one. keeps.
Qed.

Lemma keeps_db_extractAndUploadFrames path file settings :
  keeps_db (extractAndUploadFrames rt env path file settings).
Proof.
  unfold extractAndUploadFrames.
  pose proof keeps_db_uploads.
  assert (forall dir l init, keeps_db init ->
            keeps_db (fold_left (cleanup_frame dir) l init)).
  { intros. apply keeps_db_fold; [|done]. unfold cleanup_frame. keeps. }
  assert (forall dir (l : list string) init, keeps_db init ->
            keeps_db (fold_left (fun acc name =>
                        acc;; write_file (path_join dir name) []) l init)).
  { intros. apply keeps_db_fold; [|done]. keeps. }
  keeps.
Qed.

Lemma keeps_db_transcript_of audioData :
  keeps_db (transcript_of env audioData).
Proof. unfold transcript_of, transcribeAudio. keeps. Qed.

#[local] Hint Resolve keeps_db_extractAndUploadAudio
  keeps_db_extractAndUploadFrames keeps_db_transcript_of : keeps.

Lemma keeps_db_analyse inputPath file body :
  keeps_db (analyse rt env inputPath file body).
Proof.
  unfold analyse.
  assert (forall audioSegments categories,
    keeps_db (promise_all
      (map (segment_request env audioSegments categories) partNames))).
  { intros. apply keeps_db_promise_all.
    repeat constructor; unfold segment_request, gptJson; keeps. }
  unfold gptJson. keeps.
Qed.

(** *** The price of the calls *)

Lemma costs_mono {A} c n n' (m : M A) : n <= n' -> costs c n m -> costs c n' m.
Proof. intros Hn Hm w. destruct (Hm w) as (evs & ? & ?). exists evs. split; [done|lia]. Qed.

Lemma costs_nothing {A} c n (m : M A) :
  (forall w, calls (m w).2 = calls w) -> costs c n m.
Proof.
  intros Hm w. exists []. rewrite Hm, app_nil_r. split; [done|simpl; lia].
Qed.

Lemma costs_ret {A} c n (a : A) : costs c n (mret a).
Proof. by apply costs_nothing. Qed.

Lemma costs_throw {A} c n (e : string) : costs c n (mthrow e : M A).
Proof. by apply costs_nothing. Qed.

Lemma costs_lift {A} c n (r : result A) : costs c n (lift r).
Proof. by apply costs_nothing. Qed.

Lemma costs_get_files c n : costs c n get_files.
Proof. by apply costs_nothing. Qed.

Lemma costs_set_files c n fs : costs c n (set_files fs).
Proof. by apply costs_nothing. Qed.

Lemma costs_get_db c n : costs c n get_db.
Proof. by apply costs_nothing. Qed.

Lemma costs_set_db c n records : costs c n (set_db records).
Proof. by apply costs_nothing. Qed.

Lemma costs_call {A} c ev (o : result A) : costs c (price c ev) (call ev o).
Proof. intros w. exists [ev]. split; [done|simpl; lia]. Qed.

Lemma costs_call_free {A} c n ev (o : result A) :
  price c ev = 0 -> costs c n (call ev o).
Proof. intros H. eapply costs_mono; [|apply costs_call]. lia. Qed.

Lemma costs_bind {A B} c k n (m : M A) (f : A -> M B) :
  costs c k m -> (forall a, costs c n (f a)) -> costs c (k + n) (m ≫= f).
Proof.
  intros Hm Hf w. rewrite bind_run.
  destruct (Hm w) as (evs1 & E1 & L1).
  destruct (m w) as [[a|e] w1]; simpl in *.
  - destruct (Hf a w1) as (evs2 & E2 & L2). exists (evs1 ++ evs2).
    rewrite E2, E1, <- app_assoc, sum_list_with_app. split; [done|lia].
  - exists evs1. split; [done|lia].
Qed.

Lemma costs_bind_free {A B} c n (m : M A) (f : A -> M B) :
  costs c 0 m -> (forall a, costs c n (f a)) -> costs c n (m ≫= f).
Proof. intros Hm Hf. by apply (costs_bind c 0 n). Qed.

Lemma costs_bind_pay {A B} c k n (m : M A) (f : A -> M B) :
  costs c k m -> k <= n -> (forall a, costs c (n - k) (f a)) ->
  costs c n (m ≫= f).
Proof.
  intros Hm Hk Hf. apply (costs_mono c (k + (n - k))); [lia|].
  by apply costs_bind.
Qed.

Lemma costs_when c n b (m : M unit) : costs c n m -> costs c n (when_ b m).
Proof. destruct b; [done|]. intros _. apply costs_ret. Qed.

Lemma costs_promise_all2 {A B} c k n (a : M A) (b : M B) :
  costs c k a -> costs c n b -> costs c (k + n) (promise_all2 a b).
Proof.
  intros Ha Hb w. unfold promise_all2.
  destruct (Ha w) as (evs1 & E1 & L1). destruct (a w) as [ra w1].
  destruct (Hb w1) as (evs2 & E2 & L2). destruct (b w1) as [rb w2].
  simpl in *. exists (evs1 ++ evs2).
  rewrite sum_list_with_app, app_assoc, <- E1, <- E2.
  split; [by destruct ra, rb|lia].
Qed.

Lemma costs_promise_all_cons {A} c k n (t : M A) (ts : list (M A)) :
  costs c k t -> costs c n (promise_all ts) ->
  costs c (k + n) (promise_all (t :: ts)).
Proof.
  intros Ht Hts w. simpl.
  destruct (Ht w) as (evs1 & E1 & L1). destruct (t w) as [r w1].
  destruct (Hts w1) as (evs2 & E2 & L2).
  destruct (promise_all ts w1) as [rs w2].
  simpl in *. exists (evs1 ++ evs2).
  rewrite sum_list_with_app, app_assoc, <- E1, <- E2.
  split; [by destruct r, rs|lia].
Qed.

Lemma costs_promise_all_free {A} c (tasks : list (M A)) :
  Forall (costs c 0) tasks -> costs c 0 (promise_all tasks).
Proof.
  induction 1 as [|t ts Ht _ IH]; [apply costs_ret|].
  by apply (costs_promise_all_cons c 0 0).
Qed.

Lemma costs_fold {X} c (step : M unit -> X -> M unit) (l : list X) :
  (forall acc x, costs c 0 acc -> costs c 0 (step acc x)) ->
  forall init, costs c 0 init -> costs c 0 (fold_left step l init).
Proof.
  intros Hstep. induction l as [|x l IH]; intros init Hinit; simpl; auto.
Qed.


Create HintDb costs.

#[local] Hint Resolve costs_ret costs_throw costs_lift costs_get_files
  costs_set_files costs_get_db costs_set_db costs_bind_free costs_when : costs.

#[local] Hint Extern 1 (costs _ _ (call _ _)) =>
  apply costs_call_free; reflexivity : costs.

#[local] Hint Extern 2 (costs _ _ (match ?x with _ => _ end)) =>
  destruct x : costs.

Ltac free := intros; auto 20 with costs.

Lemma costs_existsSync c n path : costs c n (existsSync path).
Proof. unfold existsSync. free. Qed.

Lemma costs_unlinkSync c n path : costs c n (unlinkSync path).
Proof. unfold unlinkSync. free. Qed.

Lemma costs_mkdirSync c n path : costs c n (mkdirSync path).
Proof. unfold mkdirSync. free. Qed.

Lemma costs_readdirSync c n path : costs c n (readdirSync path).
Proof. unfold readdirSync. free. Qed.

Lemma costs_rmdirSync c n path : costs c n (rmdirSync path).
Proof. unfold rmdirSync. free. Qed.

Lemma costs_write_file c n path bytes : costs c n (write_file path bytes).
Proof. unfold write_file. free. Qed.

#[local] Hint Resolve costs_existsSync costs_unlinkSync costs_mkdirSync
  costs_readdirSync costs_rmdirSync costs_write_file : costs.

Lemma costs_unlink_if_exists c n path : costs c n (unlink_if_exists path).
Proof. unfold unlink_if_exists. free. Qed.

Lemma costs_mkdir_if_missing c n path : costs c n (mkdir_if_missing path).
Proof. unfold mkdir_if_missing. free. Qed.

#[local] Hint Resolve costs_unlink_if_exists costs_mkdir_if_missing : costs.

Lemma costs_uploads c dir used (names : list string) :
  costs c 0 (promise_all (imap (upload_one env dir used) names)).
Proof.
  apply costs_promise_all_free, Forall_imap. intros. unfold upload_one. free.
Qed.

Lemma costs_cleanup c dir (l : list string) init :
  costs c 0 init -> costs c 0 (fold_left (cleanup_frame dir) l init).
Proof. intros. apply costs_fold; [|done]. unfold cleanup_frame. free. Qed.

Lemma costs_written c dir (l : list string) init :
  costs c 0 init ->
  costs c 0 (fold_left (fun acc name =>
               acc;; write_file (path_join dir name) []) l init).
Proof. intros. apply costs_fold; [|done]. free. Qed.

#[local] Hint Resolve costs_uploads costs_cleanup costs_written : costs.

Create HintDb paid.

(** One step through a sequence: a free computation is passed over, a
    priced one is paid from the budget. *)
Ltac pay_step :=
  lazymatch goal with
  | |- costs _ _ (_ ≫= _) =>
    first [ apply costs_bind_free; [solve [free]|intros ?]
          | eapply costs_bind_pay;
            [solve [eauto with paid]|simpl; lia|intros ?] ]
  | |- costs _ _ (match ?x with _ => _ end) => destruct x
  | |- costs _ _ (let '(_, _) := ?x in _) => destruct x
  end.

Ltac pay := repeat pay_step; try solve [free].

#[local] Hint Resolve costs_call : paid.

Lemma costs_extractAndUploadAudio c path :
  costs c (price_audio c) (extractAndUploadAudio env path).
Proof. unfold extractAndUploadAudio. pay. Qed.

Lemma costs_extractAndUploadFrames c path file settings :
  costs c (price_frames c) (extractAndUploadFrames rt env path file settings).
Proof. unfold extractAndUploadFrames. pay. Qed.

Lemma costs_transcript_of c audioData :
  costs c (price_transcribe c) (transcript_of env audioData).
Proof. unfold transcript_of, transcribeAudio. pay. Qed.

Lemma costs_gptJson c messages : costs c (price_gpt c) (gptJson env messages).
Proof. apply costs_call. Qed.

Lemma costs_segment_requests c audioSegments categories :
  costs c (5 * price_gpt c)
    (promise_all (map (segment_request env audioSegments categories) partNames)).
Proof.
  eapply costs_mono;
    [|repeat (apply costs_promise_all_cons; [apply costs_gptJson|]);
      apply (costs_ret c 0)].
  lia.
Qed.

Lemma costs_extraction c path file settings :
  costs c (price_audio c + price_frames c)
    (promise_all2 (extractAndUploadAudio env path)
       (extractAndUploadFrames rt env path file settings)).
Proof.
  apply costs_promise_all2;
    [apply costs_extractAndUploadAudio|apply costs_extractAndUploadFrames].
Qed.

#[local] Hint Resolve costs_extraction costs_transcript_of
  costs_segment_requests costs_gptJson : paid.

Lemma costs_analyse c inputPath file body :
  costs c (price_audio c + price_frames c + price_transcribe c
           + 6 * price_gpt c)
    (analyse rt env inputPath file body).
Proof. unfold analyse. pay. Qed.

Lemma costs_findUnique c n identifier : costs c n (findUnique env identifier).
Proof. unfold findUnique. free. Qed.

Lemma costs_create c identifier data :
  costs c (price_create c) (create env identifier data).
Proof. unfold create. pay. Qed.

#[local] Hint Resolve costs_findUnique : costs.
#[local] Hint Resolve costs_analyse costs_create : paid.


(** *** The outcomes of the route *)

Lemma bind_Ok_inv {A B} (m : M A) (f : A -> M B) w b w' :
  (m ≫= f) w = (Ok b, w') ->
  exists a w1, m w = (Ok a, w1) /\ f a w1 = (Ok b, w').
Proof.
  rewrite bind_run. destruct (m w) as [[a|e] w1]; [eauto|done].
Qed.

(** The record [analyse] returns holds a document the validator accepts. *)
Lemma analyse_valid inputPath file body w data w' :
  analyse rt env inputPath file body w = (Ok data, w') ->
  accepts (isOpenAIResponseResult (Shape.field data "result")).
Proof.
  unfold analyse. intros H.
  apply bind_Ok_inv in H as ([audioData framesData] & w1 & _ & H).
  apply bind_Ok_inv in H as (? & w2 & _ & H).
  apply bind_Ok_inv in H as (transcript & w3 & _ & H).
  apply bind_Ok_inv in H as (answers & w4 & _ & H).
  destruct answers as [|opening [|setup [|main [|climax [|closing [|]]]]]];
    try done.
  apply bind_Ok_inv in H as (general & w5 & _ & H).
  apply bind_Ok_inv in H as (valid & w6 & Hv & H).
  destruct (truthy valid) eqn:Ht; simpl in H; [|done].
  injection H as <- <-. simpl.
  unfold lift in Hv. injection Hv as Hv _. by exists valid.
Qed.

Lemma price_create_only evs :
  sum_list_with (price create_only) evs <= 0 ->
  Forall (fun ev => is_Create ev = false) evs.
Proof.
  induction evs as [|ev evs IH]; simpl; [done|]. intros H.
  constructor; [|apply IH; lia]. destruct ev; simpl in *; try done; lia.
Qed.

(** [analyse] leaves the records alone and calls no [create]. *)
Lemma analyse_footprint inputPath file body w :
  let out := analyse rt env inputPath file body w in
  db out.2 = db w /\
  exists evs, calls out.2 = calls w ++ evs /\
    Forall (fun ev => is_Create ev = false) evs.
Proof.
  split; [apply keeps_db_analyse|].
  destruct (costs_analyse create_only inputPath file body w) as (evs & E & L).
  exists evs. split; [done|]. by apply price_create_only.
Qed.

Lemma created_valid_none evs :
  Forall (fun ev => is_Create ev = false) evs -> created_valid evs.
Proof.
  intros H identifier data Hin. rewrite Forall_forall in H.
  by apply H in Hin.
Qed.

Lemma created_valid_last evs identifier data :
  Forall (fun ev => is_Create ev = false) evs ->
  accepts (isOpenAIResponseResult (Shape.field data "result")) ->
  created_valid (evs ++ [Create identifier data]).
Proof.
  intros H Hv identifier' data' [Hin|Hin]%elem_of_app.
  - rewrite Forall_forall in H. by apply H in Hin.
  - apply list_elem_of_singleton in Hin. by injection Hin as -> ->.
Qed.

Lemma getFileHash_run path w bytes :
  files w !! path = Some (File bytes) ->
  getFileHash rt path w = (Ok (sha256_hex rt bytes), w).
Proof. intros H. unfold getFileHash. rewrite bind_run. simpl. by rewrite H. Qed.

Lemma findUnique_run identifier w :
  findUnique env identifier w =
  (match findUnique_outcome env with
   | Ok _ => Ok (db w !! identifier)
   | Throw e => Throw e
   end, called w (FindUnique identifier)).
Proof.
  unfold findUnique. rewrite bind_run. unfold call.
  by destruct (findUnique_outcome env).
Qed.

Lemma create_run identifier data w :
  create env identifier data w =
  match create_outcome env, db w !! identifier with
  | Ok _, None =>
    (Ok data, mkWorld (files w) (<[identifier := data]> (db w))
                (calls w ++ [Create identifier data]))
  | Ok _, Some _ =>
    (Throw "Unique constraint failed on the fields: (identifier)",
     called w (Create identifier data))
  | Throw e, _ => (Throw e, called w (Create identifier data))
  end.
Proof.
  unfold create. rewrite bind_run. unfold call.
  destruct (create_outcome env); [|by destruct (db w !! identifier)].
  rewrite bind_run. simpl. by destruct (db w !! identifier).
Qed.

Lemma unlink_if_exists_file path w bytes :
  files w !! path = Some (File bytes) ->
  unlink_if_exists path w =
  (Ok tt, mkWorld (delete path (files w)) (db w) (calls w)).
Proof.
  intros H. unfold unlink_if_exists, existsSync, unlinkSync.
  rewrite !bind_run. simpl. rewrite H. simpl. rewrite bind_run. simpl.
  by rewrite H.
Qed.

(** Whatever is at the path, [unlink_if_exists] calls no collaborator and
    touches no record, and leaves no file at the path. *)
Lemma unlink_if_exists_run path w :
  let out := unlink_if_exists path w in
  db out.2 = db w /\ calls out.2 = calls w /\
  (files w !! path <> Some Dir ->
   out.1 = Ok tt /\ files out.2 = delete path (files w)).
Proof.
  unfold unlink_if_exists, existsSync, unlinkSync.
  rewrite !bind_run. simpl.
  destruct (files w !! path) as [[bytes|]|] eqn:H; simpl.
  - rewrite bind_run. simpl. rewrite H. done.
  - rewrite bind_run. simpl. rewrite H. done.
  - repeat split; try done. symmetry. by apply delete_id.
Qed.

Lemma main_try_spec inputPath file body w bytes :
  files w !! inputPath = Some (File bytes) ->
  let identifier := sha256_hex rt bytes in
  let out := main_try rt env inputPath file body w in
  exists evs, calls out.2 = calls w ++ FindUnique identifier :: evs /\
    (((exists e, out.1 = Throw e) /\ db out.2 = db w /\ created_valid evs) \/
     (exists stored, db w !! identifier = Some stored /\
        out.1 = Ok (mkResponse 200 stored) /\ db out.2 = db w /\ evs = [] /\
        files out.2 = delete inputPath (files w)) \/
     (exists data evs', db w !! identifier = None /\
        out.1 = Ok (mkResponse 200 data) /\
        db out.2 = <[identifier := data]> (db w) /\
        evs = evs' ++ [Create identifier data] /\
        Forall (fun ev => is_Create ev = false) evs' /\
        accepts (isOpenAIResponseResult (Shape.field data "result")))).
Proof.
  intros Hfile identifier out. subst out. unfold main_try.
  rewrite bind_run, (getFileHash_run _ _ _ Hfile). fold identifier.
  rewrite bind_run, findUnique_run.
  set (w1 := called w (FindUnique identifier)).
  destruct (findUnique_outcome env) as [[]|e].
  2:{ exists []. split; [done|]. left. split; [by eexists|]. split; [done|].
      by apply created_valid_none. }
  destruct (db w !! identifier) as [stored|] eqn:Hdb.
  { rewrite bind_run, (unlink_if_exists_file inputPath w1 bytes) by done.
    exists []. split; [done|]. right. left. exists stored. done. }
  rewrite bind_run.
  destruct (analyse_footprint inputPath file body w1) as (Hd & evs & Hc & Hn).
  pose proof (analyse_valid inputPath file body w1) as Hv.
  destruct (analyse rt env inputPath file body w1) as [[data|e] w2];
    simpl in Hd, Hc.
  2:{ exists evs. simpl. split; [by rewrite Hc, <- app_assoc|]. left.
      split; [by eexists|]. split; [done|]. by apply created_valid_none. }
  specialize (Hv data w2 eq_refl).
  rewrite bind_run, create_run, Hd. simpl. rewrite Hdb.
  exists (evs ++ [Create identifier data]).
  destruct (create_outcome env) as [[]|e]; simpl.
  - split; [by rewrite Hc, <- !app_assoc|]. right. right.
    by exists data, evs.
  - split; [by rewrite Hc, <- !app_assoc|]. left.
    split; [by eexists|]. split; [done|]. by apply created_valid_last.
Qed.

Lemma main_try_unreadable inputPath file body w :
  (forall bytes, files w !! inputPath <> Some (File bytes)) ->
  exists e, main_try rt env inputPath file body w = (Throw e, w).
Proof.
  intros H. unfold main_try, getFileHash. rewrite !bind_run. simpl.
  destruct (files w !! inputPath) as [[bytes|]|]; simpl; eauto.
  by destruct (H bytes).
Qed.

Lemma main_catch_run inputPath message w :
  let u := unlink_if_exists inputPath w in
  main_catch inputPath message w =
  (match u.1 with
   | Ok _ => Ok (mkResponse 500 (failure_body message))
   | Throw e => Throw e
   end, u.2).
Proof.
  unfold main_catch. rewrite bind_run.
  by destruct (unlink_if_exists inputPath w) as [[[]|e] w'].
Qed.



Lemma main_route_run req file w :
  req_file req = Some file ->
  main_route rt env req w =
  match main_try rt env (file_path file) file (req_body req) w with
  | (Ok response, w') => (Ok response, w')
  | (Throw e, w') => main_catch (file_path file) e w'
  end.
Proof. intros H. unfold main_route. by rewrite H. Qed.



End Footprints.

(** ** The result cache *)

Section Cache.

Variable rt : Runtime.

(** C7: when a request for a video has returned its 200 response, a later
    request with the same bytes computes the same identifier (the first
    call of each is the cache lookup under the digest of the bytes), finds
    the document the first one returned stored under it, and answers with
    that document after the lookup alone: no other call is made, no record
    is written, and the second upload is deleted.  The cache is assumed to
    answer the second lookup. *)
Theorem cache_hit_returns_persisted (env1 env2 : Env) (upload1 upload2 : UploadedFile)
    (body1 body2 : Settings) (bytes : list Byte.byte) (w0 w1 : World)
    (doc : value) :
  files w0 !! file_path upload1 = Some (File bytes) ->
  main_route rt env1 (mkRequest (Some upload1) body1) w0
  = (Ok (mkResponse 200 doc), w1) ->
  findUnique_outcome env2 = Ok tt ->
  let identifier := sha256_hex rt bytes in
  let w1' := mkWorld (<[file_path upload2 := File bytes]> (files w1))
               (db w1) (calls w1) in
  (exists evs, calls w1 = calls w0 ++ FindUnique identifier :: evs) /\
  db w1 !! identifier = Some doc /\
  main_route rt env2 (mkRequest (Some upload2) body2) w1'
  = (Ok (mkResponse 200 doc),
     mkWorld (delete (file_path upload2) (files w1')) (db w1)
       (calls w1 ++ [FindUnique identifier])).
Proof.
  intros Hfile Hrun Hfind identifier w1'.
  rewrite (main_route_run rt env1 _ upload1) in Hrun by done. simpl in Hrun.
  destruct (main_try_spec rt env1 (file_path upload1) upload1 body1 w0 bytes Hfile)
    as (evs & Hc & H).
  destruct (main_try rt env1 (file_path upload1) upload1 body1 w0) as [r wt].
  simpl in Hc, H. fold identifier in Hc, H.
  assert (r = Ok (mkResponse 200 doc) /\ wt = w1) as [-> ->].
  { destruct r as [response|e]; [by injection Hrun as -> ->|].
    rewrite main_catch_run in Hrun.
    by destruct (unlink_if_exists (file_path upload1) wt) as [[[]|] ?]. }
  assert (db w1 !! identifier = Some doc) as Hdoc.
  { destruct H as [([e ?] & _)|[(stored & Hs & [= ->] & -> & _)
                               |(data & evs' & _ & [= ->] & -> & _)]];
      [done|done|apply lookup_insert_eq]. }
  split; [by exists evs|]. split; [done|].
  rewrite (main_route_run rt env2 _ upload2) by done. simpl.
  unfold main_try. rewrite bind_run.
  rewrite (getFileHash_run rt (file_path upload2) w1' bytes)
    by apply lookup_insert_eq.
  rewrite bind_run, findUnique_run, Hfind. simpl. fold identifier.
  rewrite Hdoc, bind_run.
  rewrite (unlink_if_exists_file (file_path upload2) _ bytes)
    by apply lookup_insert_eq.
  reflexivity.
Qed.

End Cache.

Lemma cache_hit_returns_persisted_witness :
  let identifier := sha256_hex example_runtime video_bytes in
  let w1 := first_run.2 in
  let w1' := mkWorld (<[file_path file1 := File video_bytes]> (files w1))
               (db w1) (calls w1) in
  (exists evs, calls w1 = calls world0 ++ FindUnique identifier :: evs) /\
  db w1 !! identifier = Some first_doc /\
  main_route example_runtime env_ok (mkRequest (Some file1) no_settings) w1'
  = (Ok (mkResponse 200 first_doc),
     mkWorld (delete (file_path file1) (files w1')) (db w1)
       (calls w1 ++ [FindUnique identifier])).
Proof.
  apply (cache_hit_returns_persisted example_runtime env_ok env_ok file0 file1
           no_settings no_settings video_bytes world0 first_run.2 first_doc).
  - vm_compute. reflexivity.
  - vm_compute. reflexivity.
  - reflexivity.
Defined.

(** ** Clean-up of local files *)

Section Cleanup.

Variable rt : Runtime.
Variable env : Env.
Variable upload : string.

(** The uploaded video is neither the [temp] directory nor the file the
    fetched audio is written to: the upload middleware stores it under
    [uploads/]. *)
Hypothesis upload_not_temp : upload <> "temp".
Hypothesis upload_not_audio : upload <> "temp/audio-temp.wav".

Lemma keeps_absent_ret {A} (a : A) : keeps_absent upload (mret a).
Proof. by intros w. Qed.

Lemma keeps_absent_throw {A} (e : string) : keeps_absent upload (mthrow e : M A).
Proof. by intros w. Qed.

Lemma keeps_absent_lift {A} (r : result A) : keeps_absent upload (lift r).
Proof. by intros w. Qed.

Lemma keeps_absent_call {A} ev (o : result A) : keeps_absent upload (call ev o).
Proof. by intros w. Qed.

Lemma keeps_absent_get_files : keeps_absent upload get_files.
Proof. by intros w. Qed.

Lemma keeps_absent_bind {A B} (m : M A) (f : A -> M B) :
  keeps_absent upload m -> (forall a, keeps_absent upload (f a)) ->
  keeps_absent upload (m ≫= f).
Proof.
  intros Hm Hf w H. rewrite bind_run. specialize (Hm w H).
  destruct (m w) as [[a|e] w1]; simpl in *; [|done]. by apply Hf.
Qed.

Lemma keeps_absent_when b (m : M unit) :
  keeps_absent upload m -> keeps_absent upload (when_ b m).
Proof. destruct b; [done|]. intros _. apply keeps_absent_ret. Qed.

Lemma keeps_absent_promise_all {A} (tasks : list (M A)) :
  Forall (keeps_absent upload) tasks -> keeps_absent upload (promise_all tasks).
Proof.
  induction 1 as [|t ts Ht _ IH]; [apply keeps_absent_ret|].
  intros w H. simpl. specialize (Ht w H). destruct (t w) as [r w1].
  specialize (IH w1 Ht). destruct (promise_all ts w1) as [rs w2].
  by destruct r, rs.
Qed.

Lemma keeps_absent_existsSync path : keeps_absent upload (existsSync path).
Proof. intros w H. unfold existsSync. by rewrite bind_run. Qed.

Lemma keeps_absent_unlinkSync path : keeps_absent upload (unlinkSync path).
Proof.
  intros w H. unfold unlinkSync. rewrite bind_run. simpl.
  destruct (files w !! path) as [[]|]; simpl; [|done|done].
  rewrite lookup_delete. by case_decide.
Qed.

Lemma keeps_absent_mkdirSync path :
  upload <> path -> keeps_absent upload (mkdirSync path).
Proof.
  intros Hne w H. unfold mkdirSync. rewrite bind_run. simpl.
  destruct (files w !! path); simpl; [done|]. by rewrite lookup_insert_ne.
Qed.

Lemma keeps_absent_write_file path bytes :
  upload <> path -> keeps_absent upload (write_file path bytes).
Proof.
  intros Hne w H. unfold write_file. rewrite bind_run. simpl.
  by rewrite lookup_insert_ne.
Qed.

Create HintDb absent.

#[local] Hint Resolve keeps_absent_ret keeps_absent_throw keeps_absent_lift
  keeps_absent_call keeps_absent_get_files keeps_absent_bind
  keeps_absent_when keeps_absent_existsSync keeps_absent_unlinkSync
  keeps_absent_mkdirSync keeps_absent_write_file : absent.

#[local] Hint Extern 2 (keeps_absent _ (match ?x with _ => _ end)) =>
  destruct x : absent.

(** What follows the removal of the upload in [analyse] does not put it
    back. *)
Lemma keeps_absent_after_extraction (audioData : value) (framesData : FramesData) :
  keeps_absent upload
    (transcript ← transcript_of env audioData;
     let categories := categorizeFrames (frames framesData) in
     let audioSegments := splitTranscript transcript categories in
     let openaiPayloads :=
       map (segment_request env audioSegments categories) partNames in
     answers ← promise_all openaiPayloads;
     match answers with
     | [opening; setup; main; climax; closing] =>
       general ← gptJson env [system_message;
                   mkMessage "user"
                     (summaryPrompt rt opening setup main climax closing
                        (part_text audioSegments "general"))];
       let result := VObj [("general", general); ("opening", opening);
                           ("setup", setup); ("main", main);
                           ("climax", climax); ("closing", closing)] in
       valid ← lift (isOpenAIResponseResult result);
       if negb (truthy valid) then
         mthrow "Invalid result structure from OpenAI (does not match expected interface)"
       else
         mret (VObj [("result", result); ("audio", audioData);
                     ("frames", value_of_categories categories)])
     | _ => mthrow "undefined is not iterable"
     end).
Proof.
  assert (keeps_absent upload (transcript_of env audioData)).
  { unfold transcript_of, transcribeAudio, unlink_if_exists, mkdir_if_missing.
    auto 30 with absent. }
  assert (forall audioSegments categories,
    keeps_absent upload (promise_all
      (map (segment_request env audioSegments categories) partNames))).
  { intros. apply keeps_absent_promise_all.
    repeat constructor; unfold segment_request, gptJson; auto with absent. }
  unfold gptJson. auto 30 with absent.
Qed.

Lemma unlink_if_exists_Ok path w w' :
  unlink_if_exists path w = (Ok tt, w') -> files w' !! path = None.
Proof.
  destruct (unlink_if_exists_run path w) as (_ & _ & H). intros E.
  rewrite E in H. simpl in H.
  destruct (files w !! path) as [[bytes|]|] eqn:Hf.
  - destruct H as [_ ->]; [done|]. by rewrite lookup_delete_eq.
  - unfold unlink_if_exists, existsSync, unlinkSync in E.
    rewrite !bind_run in E. simpl in E. rewrite Hf in E. simpl in E.
    rewrite bind_run in E. simpl in E. by rewrite Hf in E.
  - destruct H as [_ ->]; [done|]. by rewrite lookup_delete_eq.
Qed.

Lemma analyse_removes_upload file body w data w' :
  analyse rt env upload file body w = (Ok data, w') ->
  files w' !! upload = None.
Proof.
  unfold analyse. intros H.
  apply bind_Ok_inv in H as ([audioData framesData] & w1 & _ & H).
  apply bind_Ok_inv in H as ([] & w2 & Hu & H).
  apply unlink_if_exists_Ok in Hu.
  pose proof (keeps_absent_after_extraction audioData framesData w2 Hu) as Hk.
  change w' with (Ok data, w').2. rewrite <- H. exact Hk.
Qed.

(** X10: every response of the route to a request with a file, the 200 of
    a cache hit or of a fresh analysis as well as the 500 of a failure, is
    sent with the uploaded video removed. *)
Lemma uploaded_video_removed (file : UploadedFile) (body : Settings) (w : World)
    (response : Response) (w' : World) :
  file_path file = upload ->
  main_route rt env (mkRequest (Some file) body) w = (Ok response, w') ->
  files w' !! upload = None.
Proof.
  intros Hp. rewrite (main_route_run rt env _ file) by done. simpl.
  rewrite Hp.
  destruct (main_try rt env upload file body w) as [[r|e] w1] eqn:Ht.
  - intros [= -> ->]. unfold main_try in Ht.
    apply bind_Ok_inv in Ht as (identifier & wa & _ & Ht).
    apply bind_Ok_inv in Ht as ([stored|] & wb & _ & Ht).
    + apply bind_Ok_inv in Ht as ([] & wc & Hu & Ht).
      injection Ht as _ <-. by apply unlink_if_exists_Ok in Hu.
    + apply bind_Ok_inv in Ht as (data & wc & Ha & Ht).
      apply analyse_removes_upload in Ha.
      apply bind_Ok_inv in Ht as (created & wd & Hc & Ht).
      injection Ht as _ <-. rewrite create_run in Hc.
      destruct (create_outcome env), (db wc !! identifier); try done.
      by injection Hc as _ <-.
  - rewrite main_catch_run.
    destruct (unlink_if_exists upload w1) as [[[]|e'] w2] eqn:Hu; [|done].
    intros [= _ <-]. by apply unlink_if_exists_Ok in Hu.
Qed.

(** C9, evaluated on the code.  When the upload of the extracted audio
    fails, the request ends in its 500 response and the uploaded video is
    gone, but the temporary audio file is still there.  When the upload of
    a frame fails, the temporary frames directory and the frame files are
    still there; when the transcription fails, the fetched audio is. *)
Theorem failure_leaves_temporary_files :
  (let out := main_route example_runtime env_audio_upload_fails
                (mkRequest (Some file0) no_settings) world0 in
   out.1 = Ok (mkResponse 500 (failure_body "Upload failed")) /\
   files out.2 !! "uploads/5f1c" = None /\
   files out.2 !! "temp/1700000000000-audio.wav" = Some (File [])) /\
  (let out := main_route example_runtime env_frame_upload_fails
                (mkRequest (Some file0) no_settings) world0 in
   out.1 = Ok (mkResponse 500 (failure_body "Upload failed")) /\
   files out.2 !! "uploads/5f1c" = None /\
   files out.2 !! "temp/frames-1700000000001" = Some Dir /\
   files out.2 !! "temp/frames-1700000000001/frame-001.jpeg" = Some (File [])) /\
  (let out := main_route example_runtime env_transcription_fails
                (mkRequest (Some file0) no_settings) world0 in
   out.1 = Ok (mkResponse 500 (failure_body "Transcription failed: {}")) /\
   files out.2 !! "uploads/5f1c" = None /\
   files out.2 !! "temp/audio-temp.wav" = Some (File [])).
Proof. vm_compute. auto 20. Qed.

(** On success nothing is left but the [temp] directory. *)
Example success_leaves_no_file :
  map_to_list (files first_run.2) = [("temp", Dir)].
Proof. vm_compute. reflexivity. Qed.

End Cleanup.

(** * Further properties *)

(** ** The categorizer at the edges of its domain *)

Section CategorizerEdges.

Import Num.

Lemma Prim2SF_eq_zero x :
  (x =? 0)%float = true -> exists s, Prim2SF x = S754_zero s.
Proof.
  rewrite FloatAxioms.eqb_spec. change (Prim2SF 0) with (S754_zero false).
  destruct (Prim2SF x) as [s|[]| |[] m e]; try done. by exists s.
Qed.

Lemma perc_of_zero x mx :
  (x =? 0)%float = true -> (0 <? mx)%float = true ->
  (x / mx * 100 <=? 10)%float = true.
Proof.
  intros [s Hx]%Prim2SF_eq_zero Hmx.
  rewrite leb_spec, mul_spec, div_spec, Hx.
  rewrite ltb_spec in Hmx. change (Prim2SF 0) with (S754_zero false) in Hmx.
  destruct (Prim2SF mx) as [s'|s'| |s' m e]; try done;
    destruct s, s'; try done; vm_compute; reflexivity.
Qed.

Lemma perc_of_nan x : segment_of_perc (x / nan * 100)%float = Closing.
Proof.
  unfold segment_of_perc. rewrite !leb_spec, mul_spec, div_spec.
  change (Prim2SF nan) with S754_nan.
  by destruct (Prim2SF x).
Qed.

Lemma filter_all {A} (P : A -> Prop) `{forall x, Decision (P x)} (l : list A) :
  (forall x, P x) -> filter P l = l.
Proof.
  intros HP. induction l as [|x l IH]; [done|].
  rewrite filter_cons. destruct (decide (P x)); [by rewrite IH|]. by destruct n.
Qed.

Lemma filter_none {A} (P : A -> Prop) `{forall x, Decision (P x)} (l : list A) :
  (forall x, ~ P x) -> filter P l = [].
Proof.
  intros HP. induction l as [|x l IH]; [done|].
  rewrite filter_cons. destruct (decide (P x)) as [p|]; [|done]. by destruct (HP x).
Qed.

Lemma categorizeFrames_buckets (frames : list Frame) (k : Segment) :
  frames <> [] ->
  bucket (categorizeFrames frames) k =
  filter (fun f => frame_segment (maxTimestamp (categorizeFrames frames)) f = k)
    frames.
Proof.
  intros Hne. unfold categorizeFrames. case_decide as Hlen.
  { by apply nil_length_inv in Hlen. }
  rewrite forEach_buckets, forEach_maxTimestamp. by destruct k.
Qed.

(** X1: a frame at timestamp 0 is put in the opening bucket, and in no
    other, as soon as the largest timestamp is positive. *)
Theorem zero_timestamp_opens (frames : list Frame) (i : nat) (f : Frame) :
  frames !! i = Some f ->
  (timestamp f =? 0)%float = true ->
  (0 <? maxTimestamp (categorizeFrames frames))%float = true ->
  f ∈ opening (categorizeFrames frames) /\
  forall k, f ∈ bucket (categorizeFrames frames) k -> k = Opening.
Proof.
  intros Hi Hz Hmx.
  assert (frames <> []) as Hne by (by intros ->).
  assert (frame_segment (maxTimestamp (categorizeFrames frames)) f = Opening)
    as Hseg.
  { unfold frame_segment, segment_of_perc. by rewrite perc_of_zero. }
  split.
  - change (f ∈ bucket (categorizeFrames frames) Opening).
    rewrite categorizeFrames_buckets by done.
    apply list_elem_of_filter. split; [done|]. by eapply list_elem_of_lookup_2.
  - intros k. rewrite categorizeFrames_buckets by done.
    intros [Hk _]%list_elem_of_filter. congruence.
Qed.

Lemma zero_timestamp_opens_witness :
  frame_at "0" 0%float ∈ opening (categorizeFrames frames_example) /\
  forall k, frame_at "0" 0%float ∈ bucket (categorizeFrames frames_example) k ->
            k = Opening.
Proof.
  apply (zero_timestamp_opens frames_example 0 (frame_at "0" 0%float));
    reflexivity.
Defined.

(** X2: whatever the timestamps are, NaN and negative ones included, every
    bucket is a subsequence of the input and the bucket sizes add up to the
    number of frames: the total by which [splitTranscript] divides is
    [frames.length]. *)
Theorem categorizeFrames_keeps_count (frames : list Frame) :
  let c := categorizeFrames frames in
  (forall k, bucket c k `sublist_of` frames) /\
  length (opening c) + length (setup c) + length (main c) +
  length (climax c) + length (closing c) = length frames.
Proof.
  intros c. destruct (decide (frames = [])) as [->|Hne].
  { split; [by intros []|done]. }
  split.
  - intros k. subst c. rewrite categorizeFrames_buckets by done.
    apply sublist_filter.
  - pose proof (five_way_permutation
                  (frame_segment (maxTimestamp c)) frames) as P.
    apply Permutation_length in P. rewrite !length_app in P.
    subst c. rewrite <- !categorizeFrames_buckets in P by done.
    simpl in P. lia.
Qed.

Lemma reduce_max_from_nan (frames : list Frame) :
  fold_left (fun max f => Math_max max (timestamp f)) frames nan = nan.
Proof. induction frames as [|f frames IH]; [done|]. simpl. exact IH. Qed.

Lemma reduce_max_nan (frames : list Frame) (f : Frame) :
  f ∈ frames -> is_nan (timestamp f) = true ->
  forall acc,
    fold_left (fun max f => Math_max max (timestamp f)) frames acc = nan.
Proof.
  intros Hin Hn. induction Hin as [f frames|f g frames _ IH]; intros acc; simpl.
  - unfold Math_max at 2. rewrite Hn, orb_true_r. apply reduce_max_from_nan.
  - by apply IH.
Qed.

(** X3: one NaN timestamp makes [maxTimestamp] NaN and sends every frame,
    whatever its own timestamp, to the closing bucket. *)
Theorem nan_timestamp_closes_all (frames : list Frame) (i : nat) (f : Frame) :
  frames !! i = Some f ->
  is_nan (timestamp f) = true ->
  let c := categorizeFrames frames in
  is_nan (maxTimestamp c) = true /\ closing c = frames /\
  opening c = [] /\ setup c = [] /\ main c = [] /\ climax c = [].
Proof.
  intros Hi Hn c.
  assert (frames <> []) as Hne by (by intros ->).
  assert (maxTimestamp c = nan) as Hmx.
  { subst c. unfold categorizeFrames. case_decide as Hlen.
    { by apply nil_length_inv in Hlen. }
    rewrite forEach_maxTimestamp. simpl.
    eapply reduce_max_nan; [by eapply list_elem_of_lookup_2|done]. }
  split; [by rewrite Hmx|].
  assert (forall k, bucket c k = if decide (k = Closing) then frames else [])
    as Hb.
  { intros k. subst c. rewrite categorizeFrames_buckets by done.
    rewrite Hmx. unfold frame_segment.
    case_decide as Hk.
    - apply filter_all. intros g. by rewrite perc_of_nan.
    - apply filter_none. intros g. rewrite perc_of_nan. congruence. }
  split; [exact (Hb Closing)|].
  split; [exact (Hb Opening)|]. split; [exact (Hb Setup)|].
  split; [exact (Hb Main)|exact (Hb Climax)].
Qed.

Lemma nan_timestamp_closes_all_witness :
  let c := categorizeFrames frames_with_nan in
  is_nan (maxTimestamp c) = true /\ closing c = frames_with_nan /\
  opening c = [] /\ setup c = [] /\ main c = [] /\ climax c = [].
Proof.
  apply (nan_timestamp_closes_all frames_with_nan 0 (frame_at "0" nan));
    reflexivity.
Defined.

End CategorizerEdges.

(** ** The runs of the transcript splitter *)

Section SplitterRuns.

Lemma join_cons_char sep c w ws :
  Js.join sep (String c w :: ws) = String c (Js.join sep (w :: ws)).
Proof. by destruct ws. Qed.

(** [s.split(sep).join(sep)] is [s]. *)
Lemma join_split sep s : Js.join (String sep "") (Js.split sep s) = s.
Proof.
  induction s as [|c s IH]; [done|]. simpl.
  destruct (Ascii.eqb c sep) eqn:E.
  - apply Ascii.eqb_eq in E as ->.
    pose proof (split_not_nil sep s) as Hne.
    destruct (Js.split sep s) as [|w ws] eqn:Hs; [done|].
    change (Js.join (String sep "") ("" :: w :: ws))
      with (String sep (Js.join (String sep "") (w :: ws))).
    by rewrite IH.
  - pose proof (split_not_nil sep s) as Hne.
    destruct (Js.split sep s) as [|w ws] eqn:Hs; [done|].
    by rewrite join_cons_char, IH.
Qed.

Lemma run_rest {A} (l : list A) (c n : nat) :
  take n (drop c l) ++ drop (c + n) l = drop c l.
Proof. rewrite <- (drop_drop l n c). apply take_drop. Qed.

Lemma five_runs_cover {A} (l : list A) (a b c d e : nat) :
  take a (drop 0 l) ++ take b (drop a l) ++ take c (drop (a + b) l) ++
  take d (drop (a + b + c) l) ++ take e (drop (a + b + c + d) l) ++
  drop (a + b + c + d + e) l = l.
Proof.
  rewrite !run_rest. apply drop_0.
Qed.

(** X4: the five segments are consecutive runs of the transcript's words:
    there are word lists, one per segment in the order opening, setup,
    main, climax, closing, and a list of left-over words, such that each
    segment is its run joined by spaces and the transcript is all of them,
    in that order, joined by spaces. *)
Theorem splitTranscript_consecutive_runs (transcript : string)
    (categories : CategorizedFrames) :
  let parts := splitTranscript transcript categories in
  exists r1 r2 r3 r4 r5 rest : list string,
    parts !! "opening" = Some (Js.join " " r1) /\
    parts !! "setup" = Some (Js.join " " r2) /\
    parts !! "main" = Some (Js.join " " r3) /\
    parts !! "climax" = Some (Js.join " " r4) /\
    parts !! "closing" = Some (Js.join " " r5) /\
    r1 ++ r2 ++ r3 ++ r4 ++ r5 ++ rest = Js.split space transcript /\
    transcript = Js.join " " (r1 ++ r2 ++ r3 ++ r4 ++ r5 ++ rest).
Proof.
  intros parts. subst parts.
  destruct (decide (length (opening categories) + length (setup categories) +
                    length (main categories) + length (climax categories) +
                    length (closing categories) = 0)) as [Ht|Ht].
  - rewrite splitTranscript_no_frames by exact Ht.
    exists [], [], [], [], [], (Js.split space transcript).
    repeat (split; [done|]). symmetry. apply (join_split space).
  - rewrite (splitTranscript_unfold transcript categories Ht).
    do 5 eexists. eexists (drop _ (Js.split space transcript)).
    repeat (split; [done|]).
    rewrite five_runs_cover. split; [done|]. symmetry. apply (join_split space).
Qed.

End SplitterRuns.

(** ** Segments without frames *)

Section EmptyBuckets.

(** [Math.floor((0 / total) * n)] is 0, whatever the numbers. *)
Lemma take_count_zero total nwords : take_count 0 total nwords = 0.
Proof.
  unfold take_count, Js.floor_nat. rewrite mul_spec, div_spec.
  change (Prim2SF (Js.of_nat 0)) with (S754_zero false).
  destruct (Prim2SF (Js.of_nat total)) as [s|s| |s m e];
    destruct (Prim2SF (Js.of_nat nwords)) as [s'|s'| |s' m' e']; try done.
Qed.

(** X19: a segment whose bucket holds no frame gets the empty string,
    whatever the transcript and the other buckets: its share
    [floor((0 / total) * words.length)] is 0. *)
Theorem empty_bucket_empty_segment (transcript : string)
    (categories : CategorizedFrames) (k : Segment) :
  bucket categories k = [] ->
  splitTranscript transcript categories !! segment_name k = Some "".
Proof.
  intros Hb.
  destruct (decide (length (opening categories) + length (setup categories) +
                    length (main categories) + length (climax categories) +
                    length (closing categories) = 0)) as [Ht|Ht].
  { rewrite splitTranscript_no_frames by exact Ht. by destruct k. }
  rewrite (splitTranscript_unfold transcript categories Ht).
  destruct k; cbn [segment_name];
    do 5 (try (rewrite lookup_insert_ne by done));
    rewrite lookup_insert_eq, Hb; cbn [length];
    by rewrite take_count_zero.
Qed.

Lemma empty_bucket_empty_segment_witness :
  splitTranscript "welcome to the show" (categorizeFrames frames_example)
    !! segment_name Setup = Some "".
Proof.
  apply (empty_bucket_empty_segment "welcome to the show"
           (categorizeFrames frames_example) Setup).
  vm_compute. reflexivity.
Defined.

End EmptyBuckets.

(** ** Properties the validators do not read *)

Section ValidatorsExtras.

Lemma own_property_insert before k v after name :
  k <> name ->
  own_property (before ++ (k, v) :: after) name
  = own_property (before ++ after) name.
Proof.
  intros Hne. induction before as [|[k' v'] before IH]; simpl.
  - by apply String.eqb_neq in Hne as ->.
  - by rewrite IH.
Qed.

(** X5: [isResultItem] reads two properties only: an object with one more
    property, under any other name and with any value, gets the same
    verdict. *)
Theorem isResultItem_ignores_other_properties
    (before after : list (string * value)) (k : string) (v : value) :
  k <> "recomendations" -> k <> "assessmentIndicators" ->
  isResultItem (VObj (before ++ (k, v) :: after))
  = isResultItem (VObj (before ++ after)).
Proof.
  intros H1 H2. unfold isResultItem, and_then. simpl.
  by rewrite !own_property_insert.
Qed.

Lemma isResultItem_ignores_other_properties_witness :
  isResultItem (VObj ([("recomendations", VArr [VStr "x"])] ++
                      ("summary", VNum 1) ::
                      [("assessmentIndicators", VObj [("clarity", VBool true)])]))
  = isResultItem item_ok.
Proof.
  apply (isResultItem_ignores_other_properties
           [("recomendations", VArr [VStr "x"])]
           [("assessmentIndicators", VObj [("clarity", VBool true)])]
           "summary" (VNum 1)); discriminate.
Defined.

(** X6: [isOpenAIResponseResult] reads the five segment properties and
    [general] only: a document with one more top-level property, under any
    other name and with any value, gets the same verdict. *)
Theorem isOpenAIResponseResult_ignores_other_properties
    (before after : list (string * value)) (k : string) (v : value) :
  k ∉ ["opening"; "setup"; "main"; "climax"; "closing"; "general"] ->
  isOpenAIResponseResult (VObj (before ++ (k, v) :: after))
  = isOpenAIResponseResult (VObj (before ++ after)).
Proof.
  intros Hk. unfold isOpenAIResponseResult, and_then. simpl.
  rewrite !own_property_insert; [done|..];
    intros ->; apply Hk; set_solver.
Qed.

Lemma isOpenAIResponseResult_ignores_other_properties_witness :
  isOpenAIResponseResult
    (VObj ([("general", general_ok)] ++ ("frames", VArr []) ::
           [("opening", item_ok); ("setup", item_ok); ("main", item_ok);
            ("climax", item_ok); ("closing", item_ok)]))
  = isOpenAIResponseResult
      (VObj ([("general", general_ok)] ++
             [("opening", item_ok); ("setup", item_ok); ("main", item_ok);
              ("climax", item_ok); ("closing", item_ok)])).
Proof.
  apply (isOpenAIResponseResult_ignores_other_properties
           [("general", general_ok)] _ "frames" (VArr [])).
  intros H. repeat (apply elem_of_cons in H as [H|H]; [discriminate|]).
  by apply elem_of_nil in H.
Defined.

End ValidatorsExtras.

(** ** The frames of [extractAndUploadFrames] *)

Section Extraction.

Variable rt : Runtime.
Variable env : Env.

Lemma promise_all_Ok_inv {A} (tasks : list (M A)) w xs w' :
  promise_all tasks w = (Ok xs, w') ->
  Forall2 (fun t x => exists w1 w2, t w1 = (Ok x, w2)) tasks xs.
Proof.
  revert w xs w'. induction tasks as [|t ts IH]; intros w xs w'; simpl.
  - intros [= <- _]. constructor.
  - destruct (t w) as [r w1] eqn:Et.
    destruct (promise_all ts w1) as [rs w2] eqn:Ets.
    destruct r as [x|e], rs as [xs'|e']; try done.
    intros [= <- _]. constructor; [by eexists _, _|]. by eapply IH.
Qed.

Lemma promise_all2_Ok_inv {A B} (a : M A) (b : M B) w x y w' :
  promise_all2 a b w = (Ok (x, y), w') ->
  exists w1, a w = (Ok x, w1) /\ b w1 = (Ok y, w').
Proof.
  unfold promise_all2. destruct (a w) as [[x'|e] w1].
  - destruct (b w1) as [[y'|e] w2] eqn:Eb; simpl; [|done].
    intros [= <- <- <-]. by exists w1.
  - by destruct (b w1) as [[y'|e'] w2].
Qed.




End Extraction.


(** ** Properties of the file system that a computation keeps *)

Section FileInvariants.

Variable I : gmap string node -> Prop.

Lemma preserves_ret {A} (a : A) : preserves I (mret a).
Proof. by intros w. Qed.

Lemma preserves_throw {A} (e : string) : preserves I (mthrow e : M A).
Proof. by intros w. Qed.

Lemma preserves_lift {A} (r : result A) : preserves I (lift r).
Proof. by intros w. Qed.

Lemma preserves_call {A} ev (o : result A) : preserves I (call ev o).
Proof. by intros w. Qed.

Lemma preserves_get_files : preserves I get_files.
Proof. by intros w. Qed.

Lemma preserves_get_db : preserves I get_db.
Proof. by intros w. Qed.

Lemma preserves_set_db records : preserves I (set_db records).
Proof. by intros w. Qed.

Lemma preserves_bind {A B} (m : M A) (f : A -> M B) :
  preserves I m -> (forall a, preserves I (f a)) -> preserves I (m ≫= f).
Proof.
  intros Hm Hf w H. rewrite bind_run. specialize (Hm w H).
  destruct (m w) as [[a|e] w1]; simpl in *; [|done]. by apply Hf.
Qed.

Lemma preserves_when b (m : M unit) : preserves I m -> preserves I (when_ b m).
Proof. destruct b; [done|]. intros _. apply preserves_ret. Qed.

Lemma preserves_promise_all2 {A B} (a : M A) (b : M B) :
  preserves I a -> preserves I b -> preserves I (promise_all2 a b).
Proof.
  intros Ha Hb w H. unfold promise_all2. specialize (Ha w H).
  destruct (a w) as [ra w1]. specialize (Hb w1 Ha).
  destruct (b w1) as [rb w2]. by destruct ra, rb.
Qed.

Lemma preserves_promise_all {A} (tasks : list (M A)) :
  Forall (preserves I) tasks -> preserves I (promise_all tasks).
Proof.
  induction 1 as [|t ts Ht _ IH]; [apply preserves_ret|].
  intros w H. simpl. specialize (Ht w H). destruct (t w) as [r w1].
  specialize (IH w1 Ht). destruct (promise_all ts w1) as [rs w2].
  by destruct r, rs.
Qed.

Lemma preserves_fold {X} (step : M unit -> X -> M unit) (l : list X) :
  (forall acc x, preserves I acc -> preserves I (step acc x)) ->
  forall init, preserves I init -> preserves I (fold_left step l init).
Proof.
  intros Hstep. induction l as [|x l IH]; intros init Hinit; simpl; auto.
Qed.

Lemma preserves_existsSync path : preserves I (existsSync path).
Proof. intros w H. unfold existsSync. by rewrite bind_run. Qed.

Lemma preserves_readdirSync path : preserves I (readdirSync path).
Proof.
  intros w H. unfold readdirSync. rewrite bind_run. simpl.
  by destruct (files w !! path) as [[]|].
Qed.

(** The steps that change the file system keep [I] when deleting the path
    or putting the node at it does. *)
Lemma preserves_unlinkSync path :
  (forall fs, I fs -> I (delete path fs)) -> preserves I (unlinkSync path).
Proof.
  intros Hdel w H. unfold unlinkSync. rewrite bind_run. simpl.
  destruct (files w !! path) as [[]|]; simpl; auto.
Qed.

Lemma preserves_rmdirSync path :
  (forall fs, I fs -> I (delete path fs)) -> preserves I (rmdirSync path).
Proof.
  intros Hdel w H. unfold rmdirSync. rewrite bind_run. simpl.
  destruct (files w !! path) as [[]|]; simpl; auto.
  destruct (children (files w) path); simpl; auto.
Qed.

Lemma preserves_mkdirSync path :
  (forall fs, I fs -> I (<[path := Dir]> fs)) -> preserves I (mkdirSync path).
Proof.
  intros Hins w H. unfold mkdirSync. rewrite bind_run. simpl.
  destruct (files w !! path); simpl; auto.
Qed.

Lemma preserves_write_file path bytes :
  (forall fs, I fs -> I (<[path := File bytes]> fs)) ->
  preserves I (write_file path bytes).
Proof. intros Hins w H. unfold write_file. rewrite bind_run. simpl. auto. Qed.

End FileInvariants.

Section Changes.

Variable path : string.

Lemma present_insert p n fs : present path fs -> present path (<[p := n]> fs).
Proof.
  unfold present. intros H. destruct (decide (p = path)) as [->|Hne].
  - by rewrite lookup_insert_eq.
  - by rewrite lookup_insert_ne.
Qed.

Lemma present_delete p fs :
  p <> path -> present path fs -> present path (delete p fs).
Proof. unfold present. intros Hne H. by rewrite lookup_delete_ne. Qed.

Lemma absent_delete p fs : absent path fs -> absent path (delete p fs).
Proof. unfold absent. intros H. rewrite lookup_delete. by case_decide. Qed.

Lemma not_dir_delete p fs : not_dir path fs -> not_dir path (delete p fs).
Proof.
  unfold not_dir. intros H. destruct (decide (p = path)) as [->|Hne].
  - by rewrite lookup_delete_eq.
  - by rewrite lookup_delete_ne.
Qed.

Lemma not_dir_insert_file p bytes fs :
  not_dir path fs -> not_dir path (<[p := File bytes]> fs).
Proof.
  unfold not_dir. intros H. destruct (decide (p = path)) as [->|Hne].
  - by rewrite lookup_insert_eq.
  - by rewrite lookup_insert_ne.
Qed.

Lemma not_dir_insert_dir p fs :
  p <> path -> not_dir path fs -> not_dir path (<[p := Dir]> fs).
Proof. unfold not_dir. intros Hne H. by rewrite lookup_insert_ne. Qed.

End Changes.

Lemma length_append (s1 s2 : string) :
  String.length (s1 +:+ s2) = String.length s1 + String.length s2.
Proof. induction s1 as [|c s1 IH]; simpl; [done|]. by rewrite IH. Qed.

(** A path inside a directory is not the directory. *)
Lemma path_join_ne dir name : path_join dir name <> dir.
Proof.
  unfold path_join. intros H. apply (f_equal String.length) in H.
  rewrite !length_append in H. simpl in H. lia.
Qed.

Create HintDb files.

#[local] Hint Resolve preserves_ret preserves_throw preserves_lift
  preserves_call preserves_get_files preserves_get_db preserves_set_db
  preserves_bind preserves_when preserves_promise_all2
  preserves_existsSync preserves_readdirSync
  preserves_unlinkSync preserves_rmdirSync preserves_mkdirSync
  preserves_write_file
  present_insert present_delete absent_delete not_dir_delete
  not_dir_insert_file not_dir_insert_dir path_join_ne : files.

#[local] Hint Extern 2 (preserves _ (match ?x with _ => _ end)) =>
  destruct x : files.

(** One step of a run [H] of a sequence, with what is known of its world
    in [Hk]: the first computation is run; when it throws, so does the
    sequence. *)
Tactic Notation "run_step" hyp(H) hyp(Hk) "as" ident(a) ident(w) :=
  rewrite bind_run in H; rewrite bind_run in Hk;
  match type of H with
  | match ?x with _ => _ end = _ =>
    destruct x as [[a|?] w]; [|by injection H as <- <-]
  end.

(** ** The temporary files of the extraction *)

Section TemporaryFiles.

Variable rt : Runtime.
Variable env : Env.

Lemma mkdir_if_missing_run path w :
  (mkdir_if_missing path w).1 = Ok tt /\
  is_Some (files (mkdir_if_missing path w).2 !! path).
Proof.
  unfold mkdir_if_missing, existsSync, mkdirSync. rewrite !bind_run. simpl.
  destruct (files w !! path) eqn:Hp; simpl.
  - by rewrite Hp.
  - rewrite bind_run. simpl. rewrite Hp. simpl. by rewrite lookup_insert_eq.
Qed.

Lemma existsSync_run path w :
  existsSync path w = (Ok (bool_decide (is_Some (files w !! path))), w).
Proof.
  unfold existsSync. rewrite bind_run. simpl.
  by destruct (files w !! path).
Qed.

Lemma rmdirSync_Ok path w w' :
  rmdirSync path w = (Ok tt, w') -> files w' !! path = None.
Proof.
  unfold rmdirSync. rewrite bind_run. simpl.
  destruct (files w !! path) as [[]|]; simpl; try done.
  destruct (children _ _); [|done]. intros [= <-]. simpl.
  apply lookup_delete_eq.
Qed.





(** X9: [extractAndUploadAudio] returns exactly when the extraction, the
    probe and the upload succeed, and then its temporary audio file is
    gone; when it throws after the audio was extracted, the file is left
    behind with the extracted audio in it. *)
Theorem audio_file_removed_iff_returned (localVideoPath : string) (w : World) :
  let tempAudioPath := path_join "temp" (now_audio env +:+ "-audio.wav") in
  let out := extractAndUploadAudio env localVideoPath w in
  ((exists data, out.1 = Ok data) <->
   (exists audio metadata uploaded,
      ffmpeg_audio env = Ok audio /\ ffprobe_audio env = Ok metadata /\
      upload_audio env = Ok uploaded)) /\
  match out.1 with
  | Ok _ => files out.2 !! tempAudioPath = None
  | Throw _ =>
    forall audio, ffmpeg_audio env = Ok audio ->
      files out.2 !! tempAudioPath = Some (File audio)
  end.
Proof.
  intros tempAudioPath out. subst out.
  destruct (extractAndUploadAudio env localVideoPath w) as [r w'] eqn:H.
  simpl. unfold extractAndUploadAudio in H. fold tempAudioPath in H.
  rewrite bind_run in H.
  destruct (mkdir_if_missing_run "temp" w) as [H1 _].
  destruct (mkdir_if_missing "temp" w) as [[[]|e] w1]; [clear H1|done].
  rewrite bind_run in H. unfold call at 1 in H.
  destruct (ffmpeg_audio env) as [audio|e].
  2:{ injection H as <- <-. split; [|done].
      split; [by intros [? ?]|by intros (? & ? & ? & ? & _)]. }
  rewrite bind_run in H. unfold write_file at 1 in H.
  rewrite bind_run in H. simpl in H.
  rewrite bind_run in H. unfold call at 1 in H. simpl in H.
  destruct (ffprobe_audio env) as [metadata|e].
  2:{ injection H as <- <-. split.
      - split; [by intros [? ?]|by intros (? & ? & ? & _ & ? & _)].
      - intros ? [= <-]. simpl. apply lookup_insert_eq. }
  rewrite bind_run in H. unfold call at 1 in H. simpl in H.
  destruct (upload_audio env) as [uploaded|e].
  2:{ injection H as <- <-. split.
      - split; [by intros [? ?]|by intros (? & ? & ? & _ & _ & ?)].
      - intros ? [= <-]. simpl. apply lookup_insert_eq. }
  rewrite bind_run in H.
  rewrite (unlink_if_exists_file tempAudioPath _ audio) in H
    by apply lookup_insert_eq.
  injection H as <- <-. split.
  - split; [by eexists _, _, _|by eexists].
  - simpl. apply lookup_delete_eq.
Qed.

End TemporaryFiles.

(** The first request of the examples ends with the upload removed. *)
Lemma uploaded_video_removed_witness :
  files first_run.2 !! "uploads/5f1c" = None.
Proof.
  apply (uploaded_video_removed example_runtime env_ok "uploads/5f1c"
           ltac:(discriminate) ltac:(discriminate)
           file0 no_settings world0 (mkResponse 200 first_doc) first_run.2).
  - reflexivity.
  - vm_compute. reflexivity.
Defined.

(** ** What the stored record is made of *)

Section Composition.

Variable rt : Runtime.
Variable env : Env.

Lemma splitTranscript_general transcript categories :
  part_text (splitTranscript transcript categories) "general" = transcript.
Proof.
  unfold part_text.
  destruct (decide (length (opening categories) + length (setup categories) +
                    length (main categories) + length (climax categories) +
                    length (closing categories) = 0)) as [Ht|Ht].
  - by rewrite splitTranscript_no_frames.
  - by rewrite (splitTranscript_unfold transcript categories Ht).
Qed.

(** The audio data [extractAndUploadAudio] returns carries no transcript. *)
Lemma extractAndUploadAudio_no_transcript localVideoPath w audioData w' :
  extractAndUploadAudio env localVideoPath w = (Ok audioData, w') ->
  get_prop audioData "transcript" = Ok VUndefined.
Proof.
  unfold extractAndUploadAudio. intros H.
  apply bind_Ok_inv in H as (? & w1 & _ & H).
  apply bind_Ok_inv in H as (audio & w2 & _ & H).
  apply bind_Ok_inv in H as (? & w3 & _ & H).
  apply bind_Ok_inv in H as (metadata & w4 & _ & H).
  apply bind_Ok_inv in H as (uploaded & w5 & _ & H).
  apply bind_Ok_inv in H as (? & w6 & _ & H).
  by injection H as <- _.
Qed.

(** Without a transcript in the audio data, the transcript is the text the
    transcription service returns. *)
Lemma transcript_of_transcribed audioData w transcript w' :
  get_prop audioData "transcript" = Ok VUndefined ->
  transcript_of env audioData w = (Ok transcript, w') ->
  transcribe env = Ok transcript.
Proof.
  intros Hno. unfold transcript_of. rewrite Hno. intros H.
  apply bind_Ok_inv in H as (? & w1 & [= <- <-] & H). simpl in H.
  apply bind_Ok_inv in H as (audioUrl & w2 & _ & H).
  apply bind_Ok_inv in H as (? & w3 & _ & H).
  apply bind_Ok_inv in H as (? & w4 & _ & H).
  apply bind_Ok_inv in H as (? & w5 & _ & H).
  apply bind_Ok_inv in H as (received & w6 & _ & H).
  apply bind_Ok_inv in H as (? & w7 & _ & H).
  apply bind_Ok_inv in H as (text & w8 & Ht & H).
  apply bind_Ok_inv in H as (? & w9 & _ & H).
  injection H as <- _. unfold transcribeAudio, call in Ht.
  by injection Ht as -> _.
Qed.

Lemma segment_request_Ok audioSegments categories name w answer w' :
  segment_request env audioSegments categories name w = (Ok answer, w') ->
  gptJson_outcome env
    [system_message;
     mkMessage "user"
       (buildPrompt (segment_name name)
          (part_text audioSegments (segment_name name))
          (bucket categories name))] = Ok answer.
Proof. unfold segment_request, gptJson, call. by intros [= -> _]. Qed.

(** X11: the record [analyse] returns is made of the parts of one run:
    the transcript is the text the transcription service returned (the
    audio data never carries one, so the service is always asked), the
    [frames] field holds the categories of the frames the extraction
    returned, each segment field of [result] is the answer of the
    completion service to the prompt built from that segment's name, its
    part of the transcript and its bucket of frames, and [general] is the
    answer to the summary prompt over those five answers and the whole
    transcript. *)
Theorem analyse_composition (inputPath : string) (file : UploadedFile)
    (body : Settings) (w : World) (data : value) (w' : World) :
  analyse rt env inputPath file body w = (Ok data, w') ->
  exists (transcript : string) (framesData : FramesData) (w0 w1 : World),
    extractAndUploadFrames rt env inputPath file
      (mkSettings (s_interval body) (s_format body) (s_quality body)) w0
    = (Ok framesData, w1) /\
    transcribe env = Ok transcript /\
    let categories := categorizeFrames (frames framesData) in
    let audioSegments := splitTranscript transcript categories in
    let result := Shape.field data "result" in
    Shape.field data "frames" = value_of_categories categories /\
    (forall name : Segment,
       gptJson_outcome env
         [system_message;
          mkMessage "user"
            (buildPrompt (segment_name name)
               (part_text audioSegments (segment_name name))
               (bucket categories name))]
       = Ok (Shape.field result (segment_name name))) /\
    gptJson_outcome env
      [system_message;
       mkMessage "user"
         (summaryPrompt rt (Shape.field result "opening")
            (Shape.field result "setup") (Shape.field result "main")
            (Shape.field result "climax") (Shape.field result "closing")
            transcript)]
    = Ok (Shape.field result "general").
Proof.
  unfold analyse. intros H.
  apply bind_Ok_inv in H as ([audioData framesData] & w1 & Hex & H).
  apply promise_all2_Ok_inv in Hex as (w0 & Haudio & Hframes).
  apply extractAndUploadAudio_no_transcript in Haudio.
  apply bind_Ok_inv in H as (? & w2 & _ & H).
  apply bind_Ok_inv in H as (transcript & w3 & Ht & H).
  apply (transcript_of_transcribed _ _ _ _ Haudio) in Ht.
  apply bind_Ok_inv in H as (answers & w4 & Hans & H).
  apply promise_all_Ok_inv in Hans.
  destruct answers as [|opening [|setup [|main [|climax [|closing [|]]]]]];
    try done.
  apply bind_Ok_inv in H as (general & w5 & Hg & H).
  apply bind_Ok_inv in H as (valid & w6 & _ & H).
  destruct (truthy valid); simpl in H; [|done].
  injection H as <- _.
  exists transcript, framesData, w0, w1.
  split; [done|]. split; [done|]. cbv zeta. simpl Shape.field.
  split; [done|]. split.
  - cbn [map partNames] in Hans.
    repeat match goal with
           | H : Forall2 _ (_ :: _) (_ :: _) |- _ =>
             apply Forall2_cons in H as [(? & ? & ?%segment_request_Ok) H]
           end.
    by intros [].
  - unfold gptJson, call in Hg. rewrite splitTranscript_general in Hg.
    by injection Hg as -> _.
Qed.

End Composition.

Lemma analyse_composition_witness :
  exists (data : value) (transcript : string) (framesData : FramesData)
         (w0 w1 : World),
    extractAndUploadFrames example_runtime env_ok "uploads/5f1c" file0
      (mkSettings (s_interval no_settings) (s_format no_settings)
         (s_quality no_settings)) w0
    = (Ok framesData, w1) /\
    transcribe env_ok = Ok transcript /\
    let categories := categorizeFrames (frames framesData) in
    let audioSegments := splitTranscript transcript categories in
    let result := Shape.field data "result" in
    Shape.field data "frames" = value_of_categories categories /\
    (forall name : Segment,
       gptJson_outcome env_ok
         [system_message;
          mkMessage "user"
            (buildPrompt (segment_name name)
               (part_text audioSegments (segment_name name))
               (bucket categories name))]
       = Ok (Shape.field result (segment_name name))) /\
    gptJson_outcome env_ok
      [system_message;
       mkMessage "user"
         (summaryPrompt example_runtime (Shape.field result "opening")
            (Shape.field result "setup") (Shape.field result "main")
            (Shape.field result "climax") (Shape.field result "closing")
            transcript)]
    = Ok (Shape.field result "general").
Proof.
  destruct (analyse example_runtime env_ok "uploads/5f1c" file0 no_settings
              world0) as [[data|e] w'] eqn:E.
  - exists data.
    exact (analyse_composition example_runtime env_ok "uploads/5f1c" file0
             no_settings world0 data w' E).
  - vm_compute in E. discriminate E.
Defined.

(** ** Every request is answered *)

Section Responds.

Variable rt : Runtime.
Variable env : Env.
Variable upload : string.

(** The uploaded video is neither the [temp] directory nor the directory
    of the frames: the upload middleware stores it under [uploads/]. *)
Hypothesis upload_not_temp : "temp" <> upload.
Hypothesis upload_not_frames :
  path_join "temp" ("frames-" +:+ now_frames env) <> upload.

Lemma not_dir_unlink_if_exists p :
  preserves (not_dir upload) (unlink_if_exists p).
Proof. unfold unlink_if_exists. auto 10 with files. Qed.

Lemma not_dir_mkdir_if_missing p :
  p <> upload -> preserves (not_dir upload) (mkdir_if_missing p).
Proof. intros. unfold mkdir_if_missing. auto 10 with files. Qed.

#[local] Hint Resolve not_dir_unlink_if_exists not_dir_mkdir_if_missing : files.

Lemma not_dir_extractAndUploadAudio p :
  preserves (not_dir upload) (extractAndUploadAudio env p).
Proof. unfold extractAndUploadAudio. auto 20 with files. Qed.

Lemma not_dir_extractAndUploadFrames p file settings :
  preserves (not_dir upload) (extractAndUploadFrames rt env p file settings).
Proof.
  unfold extractAndUploadFrames.
  assert (forall dir used (l : list string),
    preserves (not_dir upload) (promise_all (imap (upload_one env dir used) l)))
    as Hup.
  { intros. apply preserves_promise_all, Forall_imap.
    intros. unfold upload_one. auto with files. }
  assert (forall dir (l : list string) init, preserves (not_dir upload) init ->
    preserves (not_dir upload) (fold_left (cleanup_frame dir) l init))
    as Hclean.
  { intros. apply preserves_fold; [|done].
    unfold cleanup_frame. auto 10 with files. }
  assert (forall dir (l : list string) init, preserves (not_dir upload) init ->
    preserves (not_dir upload) (fold_left (fun acc name =>
       acc;; write_file (path_join dir name) []) l init)) as Hwrite.
  { intros. apply preserves_fold; [|done]. auto with files. }
  auto 30 with files.
Qed.

Lemma not_dir_transcript_of audioData :
  preserves (not_dir upload) (transcript_of env audioData).
Proof. unfold transcript_of, transcribeAudio. auto 30 with files. Qed.

#[local] Hint Resolve not_dir_extractAndUploadAudio
  not_dir_extractAndUploadFrames not_dir_transcript_of : files.





End Responds.


(** ** An upload that cannot be read *)

Section Unreadable.

Variable rt : Runtime.
Variable env : Env.

(** X20: an upload that cannot be read.  When nothing is at the path of
    the upload, hashing fails, nothing else is done and the response is a
    500; when the path is a directory, the removal of the upload in the
    [catch] block fails as well, so the handler throws and no response is
    sent.  In both cases the world is left as it was. *)
Theorem main_route_unreadable_upload (file : UploadedFile) (body : Settings)
    (w : World) :
  let out := main_route rt env (mkRequest (Some file) body) w in
  (files w !! file_path file = None ->
   exists message, out = (Ok (mkResponse 500 (failure_body message)), w)) /\
  (files w !! file_path file = Some Dir -> exists e, out = (Throw e, w)).
Proof.
  intros out. subst out.
  rewrite (main_route_run rt env _ file) by done. simpl.
  split; intros Hf.
  - destruct (main_try_unreadable rt env (file_path file) file body w)
      as [e ->]; [by rewrite Hf|].
    exists e. unfold main_catch, unlink_if_exists, existsSync.
    rewrite !bind_run. simpl. by rewrite Hf.
  - destruct (main_try_unreadable rt env (file_path file) file body w)
      as [e ->]; [by rewrite Hf|].
    unfold main_catch, unlink_if_exists, existsSync, unlinkSync.
    rewrite !bind_run. simpl. rewrite Hf. simpl.
    rewrite !bind_run. simpl. rewrite Hf. by eexists.
Qed.

End Unreadable.

(** ** The answers of the services *)

Section Services.

Variable rt : Runtime.
Variable JSON_parse : string -> result value.

(** X13: [transcribeAudio] never returns an empty transcript: what it
    returns is the truthy [text] of the answer, and an answer whose [text]
    is missing or empty (a recording without speech as well as an error
    payload) is thrown as a failure that quotes the answer. *)
Theorem transcribeAudio_never_empty :
  (forall fetched text,
     OpenAI.transcribeAudio rt fetched = Ok text ->
     truthy text = true /\
     exists data, fetched = Ok data /\ get_prop data "text" = Ok text) /\
  (forall props,
     truthy (own_property props "text") = false ->
     OpenAI.transcribeAudio rt (Ok (VObj props))
     = Throw ("Transcription failed: " +:+ JSON_stringify rt (VObj props))).
Proof.
  split.
  - unfold OpenAI.transcribeAudio. intros [data|e] text; simpl; [|done].
    destruct (get_prop data "text") as [t|e] eqn:Hd; [|done]. simpl.
    destruct (truthy t) eqn:Ht; [|done]. intros [= <-]. split; [done|].
    by exists data.
  - intros props Ht. unfold OpenAI.transcribeAudio. simpl. by rewrite Ht.
Qed.

(** X14: whatever [gptJson] returns is the parse of the content of the
    first choice of an answer that carries no error. *)
Theorem gptJson_returns_parsed_content (fetched : result value)
    (parsed : value) :
  OpenAI.gptJson rt JSON_parse fetched = Ok parsed ->
  exists data error content,
    fetched = Ok data /\
    get_prop data "error" = Ok error /\ truthy error = false /\
    OpenAI.first_content data = Ok content /\
    JSON_parse (OpenAI.to_string rt content) = Ok parsed.
Proof.
  unfold OpenAI.gptJson. destruct fetched as [data|e]; simpl; [|done].
  destruct (get_prop data "error") as [error|e] eqn:Hd; [|done]. simpl.
  destruct (truthy error) eqn:Ht.
  { by destruct (get_prop error "message"). }
  destruct (OpenAI.first_content data) as [content|e] eqn:Hc; [|done]. simpl.
  destruct (JSON_parse (OpenAI.to_string rt content)) as [v|e] eqn:Hp; [|done].
  intros [= <-]. by exists data, error, content.
Qed.

(** X15: how [gptJson] fails.  An answer with an error throws the message
    of the error, whether or not it also carries choices.  Without an
    error, content that does not parse throws "Invalid JSON from OpenAI: "
    followed by the content; but when the content cannot be read (no
    choices, an empty list of choices, a choice without a message), the
    [catch] block fails reading it again and the TypeError of the read is
    what is thrown. *)
Theorem gptJson_failures (data error : value) :
  get_prop data "error" = Ok error ->
  let out := OpenAI.gptJson rt JSON_parse (Ok data) in
  (truthy error = true ->
   exists message, get_prop error "message" = Ok message /\
     out = Throw (OpenAI.error_message rt message)) /\
  (truthy error = false ->
   (forall e, OpenAI.first_content data = Throw e -> out = Throw e) /\
   (forall content e,
      OpenAI.first_content data = Ok content ->
      JSON_parse (OpenAI.to_string rt content) = Throw e ->
      out = Throw ("Invalid JSON from OpenAI: " +:+ OpenAI.to_string rt content))).
Proof.
  intros He out. subst out. unfold OpenAI.gptJson. simpl. rewrite He. simpl.
  split; intros Ht; rewrite Ht.
  - destruct error; try done; by eexists.
  - split.
    + by intros e ->.
    + intros content e -> Hp. simpl. by rewrite Hp.
Qed.

End Services.

Lemma gptJson_returns_parsed_content_witness :
  exists data error content,
    Ok (completion (VStr "{}")) = Ok data /\
    get_prop data "error" = Ok error /\ truthy error = false /\
    OpenAI.first_content data = Ok content /\
    example_parse (OpenAI.to_string example_runtime content) = Ok (VObj []).
Proof.
  apply (gptJson_returns_parsed_content example_runtime example_parse
           (Ok (completion (VStr "{}"))) (VObj [])).
  reflexivity.
Defined.

Lemma gptJson_failures_witness :
  let out := OpenAI.gptJson example_runtime example_parse
               (Ok (VObj [("choices", VArr [])])) in
  (truthy VUndefined = true ->
   exists message, get_prop VUndefined "message" = Ok message /\
     out = Throw (OpenAI.error_message example_runtime message)) /\
  (truthy VUndefined = false ->
   (forall e, OpenAI.first_content (VObj [("choices", VArr [])]) = Throw e ->
      out = Throw e) /\
   (forall content e,
      OpenAI.first_content (VObj [("choices", VArr [])]) = Ok content ->
      example_parse (OpenAI.to_string example_runtime content) = Throw e ->
      out = Throw ("Invalid JSON from OpenAI: "
                   +:+ OpenAI.to_string example_runtime content))).
Proof.
  apply (gptJson_failures example_runtime example_parse
           (VObj [("choices", VArr [])]) VUndefined).
  reflexivity.
Defined.

(** ** The upload middleware *)

Section Upload.

(** X16: the format [uploadCloudinary] asks the storage for is the subtype
    of the MIME type, the part after the slash, and [undefined] when the
    MIME type has no slash. *)
Theorem uploadCloudinary_format_subtype (type subtype : string) :
  Js.has_char "/" type = false -> Js.has_char "/" subtype = false ->
  uploadCloudinary_format (type +:+ "/" +:+ subtype) = VStr subtype /\
  uploadCloudinary_format type = VUndefined.
Proof.
  intros Ht Hs. unfold uploadCloudinary_format.
  change ("/" +:+ subtype) with (String "/" subtype).
  by rewrite (split_word_sep _ _ _ Ht), (split_word _ _ Hs), (split_word _ _ Ht).
Qed.

Lemma uploadCloudinary_format_subtype_witness :
  uploadCloudinary_format ("video" +:+ "/" +:+ "mp4") = VStr "mp4" /\
  uploadCloudinary_format "video" = VUndefined.
Proof.
  apply (uploadCloudinary_format_subtype "video" "mp4"); reflexivity.
Defined.

End Upload.

(** ** The routes of the first version *)

Section RoutesCleanup.

Variable rt : Runtime.
Variable env : Env.
Variable dl : Download.

Lemma absent_unlink_if_exists path p :
  preserves (absent path) (unlink_if_exists p).
Proof. unfold unlink_if_exists. auto 10 with files. Qed.

Lemma absent_cleanup path dir (l : list string) init :
  preserves (absent path) init ->
  preserves (absent path) (fold_left (cleanup_frame dir) l init).
Proof.
  intros. apply preserves_fold; [|done].
  pose proof absent_unlink_if_exists.
  unfold cleanup_frame. auto 10 with files.
Qed.

Lemma cleanup_keeps_absent path dir (l : list string) w r w' :
  fold_left (cleanup_frame dir) l (mret tt) w = (r, w') ->
  files w !! path = None -> files w' !! path = None.
Proof.
  intros Hc Hp.
  pose proof (absent_cleanup path dir l (mret tt) (preserves_ret _ tt) w Hp)
    as Hk.
  by rewrite Hc in Hk.
Qed.

Lemma rmdirSync_keeps_absent path dir w r w' :
  rmdirSync dir w = (r, w') ->
  files w !! path = None -> files w' !! path = None.
Proof.
  intros Hr Hp.
  pose proof (preserves_rmdirSync (absent path) dir (absent_delete path dir)
                w Hp) as Hk.
  by rewrite Hr in Hk.
Qed.

Lemma try_catch_Ok_inv {A} (body : M A) handler w a w' :
  try_catch body handler w = (Ok a, w') ->
  body w = (Ok a, w') \/ exists e w1, handler e w1 = (Ok a, w').
Proof.
  unfold try_catch. destruct (body w) as [[a'|e] w1]; [by left|].
  intros H. right. by exists e, w1.
Qed.

(** X17: every response of [/api/audio] to a request with a file, the 200
    as well as the 500 of a failure, is sent with the local copy of the
    video and the extracted audio file removed: unlike the [catch] block
    of [/api/main], the one of this route removes the temporary files. *)
Theorem audio_route_cleans_up (req : Request) (w : World)
    (response : Response) (w' : World) :
  audio_route env dl req w = (Ok response, w') ->
  status response <> 400 ->
  files w' !! path_join "temp" (now_video dl +:+ "-video") = None /\
  files w' !! path_join "temp" (now_audio env +:+ "-audio.wav") = None.
Proof.
  unfold audio_route. destruct (req_file req) as [file|].
  2:{ by intros [= <- _] []. }
  set (video := path_join "temp" (now_video dl +:+ "-video")).
  set (audio := path_join "temp" (now_audio env +:+ "-audio.wav")).
  intros H _.
  assert (forall (r : Response) w0,
    (unlink_if_exists video;; unlink_if_exists audio;; mret r) w0
    = (Ok response, w') ->
    files w' !! video = None /\ files w' !! audio = None) as Hclean.
  { intros r w0 Hc.
    apply bind_Ok_inv in Hc as ([] & wa & Hv & Hc).
    apply bind_Ok_inv in Hc as ([] & wb & Ha & Hc).
    injection Hc as _ <-. apply unlink_if_exists_Ok in Hv.
    split; [|by apply unlink_if_exists_Ok in Ha].
    pose proof (absent_unlink_if_exists video audio wa Hv) as Hk.
    by rewrite Ha in Hk. }
  apply try_catch_Ok_inv in H as [H|(e & w1 & H)]; [|by eapply Hclean].
  apply bind_Ok_inv in H as (? & w1 & _ & H).
  apply bind_Ok_inv in H as (? & w2 & _ & H).
  apply bind_Ok_inv in H as (? & w3 & _ & H).
  apply bind_Ok_inv in H as (received & w4 & _ & H).
  apply bind_Ok_inv in H as (? & w5 & _ & H).
  apply bind_Ok_inv in H as (extracted & w6 & _ & H).
  apply bind_Ok_inv in H as (? & w7 & _ & H).
  apply bind_Ok_inv in H as (metadata & w8 & _ & H).
  apply bind_Ok_inv in H as (uploaded & w9 & _ & H).
  by eapply Hclean.
Qed.

(** X18: every response of [/api/frames] to a request with a file is sent
    with the local copy of the video and the temporary frames directory
    removed; after a failure the [catch] block removes every file of the
    directory, whatever its name, and then the directory. *)
Theorem frames_route_cleans_up (req : Request) (w : World)
    (response : Response) (w' : World) :
  frames_route rt env dl req w = (Ok response, w') ->
  status response <> 400 ->
  files w' !! path_join "temp" (now_video dl +:+ "-video") = None /\
  files w' !! path_join "temp" ("frames-" +:+ now_frames env) = None.
Proof.
  unfold frames_route. destruct (req_file req) as [file|].
  2:{ by intros [= <- _] []. }
  set (video := path_join "temp" (now_video dl +:+ "-video")).
  set (dir := path_join "temp" ("frames-" +:+ now_frames env)).
  intros H _.
  apply try_catch_Ok_inv in H as [H|(e & w1 & H)].
  - apply bind_Ok_inv in H as (? & w1 & _ & H).
    apply bind_Ok_inv in H as (? & w2 & _ & H).
    apply bind_Ok_inv in H as (? & w3 & _ & H).
    apply bind_Ok_inv in H as (? & w4 & _ & H).
    apply bind_Ok_inv in H as (received & w5 & _ & H).
    apply bind_Ok_inv in H as (? & w6 & _ & H).
    apply bind_Ok_inv in H as (meta & w7 & _ & H).
    destruct (video_stream meta) as [[width height]|]; [|done].
    apply bind_Ok_inv in H as (written & w8 & _ & H).
    apply bind_Ok_inv in H as (? & w9 & _ & H).
    apply bind_Ok_inv in H as (listed & w10 & _ & H).
    apply bind_Ok_inv in H as (extracted & w11 & _ & H).
    apply bind_Ok_inv in H as ([] & w12 & Hv & H).
    apply unlink_if_exists_Ok in Hv.
    apply bind_Ok_inv in H as ([] & w13 & Hc & H).
    apply (cleanup_keeps_absent video) in Hc; [|done].
    apply bind_Ok_inv in H as (ex & w14 & He & H).
    rewrite existsSync_run in He. injection He as <- <-.
    apply bind_Ok_inv in H as ([] & w15 & Hr & H).
    injection H as _ <-.
    destruct (files w13 !! dir) as [n|] eqn:Hd; simpl in Hr.
    + split; [|by apply rmdirSync_Ok in Hr].
      by apply (rmdirSync_keeps_absent video) in Hr.
    + by injection Hr as <-.
  - apply bind_Ok_inv in H as ([] & wa & Hv & H).
    apply unlink_if_exists_Ok in Hv.
    apply bind_Ok_inv in H as (ex & wb & He & H).
    rewrite existsSync_run in He. injection He as <- <-.
    apply bind_Ok_inv in H as ([] & wc & Hr & H).
    injection H as _ <-.
    destruct (files wa !! dir) as [n|] eqn:Hd; simpl in Hr.
    + apply bind_Ok_inv in Hr as (listed & wd & Hl & Hr).
      assert (wd = wa) as ->.
      { unfold readdirSync in Hl. rewrite bind_run in Hl. simpl in Hl.
        destruct (files wa !! dir) as [[]|]; simpl in Hl; try done.
        by injection Hl as _ <-. }
      apply bind_Ok_inv in Hr as ([] & we & Hc & Hr).
      apply (cleanup_keeps_absent video) in Hc; [|done].
      split; [|by apply rmdirSync_Ok in Hr].
      by apply (rmdirSync_keeps_absent video) in Hr.
    + by injection Hr as <-.
Qed.

End RoutesCleanup.

Lemma audio_route_cleans_up_witness :
  exists response w',
    audio_route env_audio_upload_fails download_ok
      (mkRequest (Some stored_file) no_settings) empty_world
    = (Ok response, w') /\
    status response = 500 /\
    files w' !! path_join "temp" (now_video download_ok +:+ "-video") = None /\
    files w' !! path_join "temp" (now_audio env_audio_upload_fails +:+ "-audio.wav")
    = None.
Proof.
  destruct (audio_route env_audio_upload_fails download_ok
              (mkRequest (Some stored_file) no_settings) empty_world)
    as [[response|e] w'] eqn:E.
  - assert (status response = 500) as Hs.
    { vm_compute in E. by injection E as <- _. }
    exists response, w'. split; [done|]. split; [done|].
    apply (audio_route_cleans_up env_audio_upload_fails download_ok
             (mkRequest (Some stored_file) no_settings) empty_world
             response w' E).
    rewrite Hs. discriminate.
  - vm_compute in E. discriminate E.
Defined.

Lemma frames_route_cleans_up_witness :
  exists response w',
    frames_route example_runtime env_frame_upload_fails download_ok
      (mkRequest (Some stored_file) no_settings) empty_world
    = (Ok response, w') /\
    status response = 500 /\
    files w' !! path_join "temp" (now_video download_ok +:+ "-video") = None /\
    files w' !! path_join "temp" ("frames-" +:+ now_frames env_frame_upload_fails)
    = None.
Proof.
  destruct (frames_route example_runtime env_frame_upload_fails download_ok
              (mkRequest (Some stored_file) no_settings) empty_world)
    as [[response|e] w'] eqn:E.
  - assert (status response = 500) as Hs.
    { vm_compute in E. by injection E as <- _. }
    exists response, w'. split; [done|]. split; [done|].
    apply (frames_route_cleans_up example_runtime env_frame_upload_fails
             download_ok (mkRequest (Some stored_file) no_settings)
             empty_world response w' E).
    rewrite Hs. discriminate.
  - vm_compute in E. discriminate E.
Defined.
